(** * Superset front-end: the asynchronous component loader and the
      dashboard-info persistence thunks

    Shallow embedding of

    - [AsyncEsmComponent] (the deferred module loader: [DefaultPlaceholder],
      [waitForPromise], the [AsyncComponent] render function and its effect),
    - [src/dashboard/actions/dashboardInfo.ts] (the four persistence thunks),

    together with the properties their specification states.

    JavaScript values are modelled by a small value type with the language's
    truthiness, [||], [&&], [??], [===] and property lookup written out;
    promises by a heap of promise objects with reaction lists and a FIFO
    microtask queue; the host rendering engine by events (mount, re-render,
    effect flush, unmount) that may interleave freely with preload calls,
    promise settlement and microtasks.

    Functions the code is handed or imports ([dispatch], [getState], [t],
    [addDangerToast], [getErrorText], ...) are taken at their declared
    types: a call returns.  Exceptions are modelled where the code's own
    expressions throw (a property read on [undefined] or [null],
    [JSON.parse], the HTTP client), where the factory handed to the loader
    throws instead of returning its promise, and where the code catches
    them. *)

From Stdlib Require Import ZArith String List Bool Lia.
From stdpp Require Import base list.
Import ListNotations.

Local Open Scope string_scope.
Local Open Scope list_scope.
Set Warnings "-register-all".

(* ===================================================================== *)
(** * JavaScript values *)
(* ===================================================================== *)

Module JS.

(** Objects and functions carry an identity (what [===] compares) and their
    own properties in insertion order.  Numbers are the integers: no claim
    depends on fractions or NaN. *)
Inductive value : Type :=
| VUndefined
| VNull
| VBool (b : bool)
| VNum (n : Z)
| VStr (s : string)
| VObj (id : nat) (fields : list (string * value))
| VFun (id : nat) (statics : list (string * value)).

Definition object : Type := list (string * value).

(** [!!v] *)
Definition truthy (v : value) : bool :=
  match v with
  | VUndefined | VNull => false
  | VBool b => b
  | VNum n => negb (n =? 0)%Z
  | VStr s => negb (s =? "")%string
  | VObj _ _ | VFun _ _ => true
  end.

(** [a || b] on already evaluated operands. *)
Definition js_or (a b : value) : value := if truthy a then a else b.

(** The left operands for which [a ?? b] takes [b]. *)
Definition nullish (v : value) : bool :=
  match v with VUndefined | VNull => true | _ => false end.

(** [a === b]: primitives by value, objects and functions by identity. *)
Definition strict_eq (a b : value) : bool :=
  match a, b with
  | VUndefined, VUndefined => true
  | VNull, VNull => true
  | VBool x, VBool y => Bool.eqb x y
  | VNum x, VNum y => (x =? y)%Z
  | VStr x, VStr y => (x =? y)%string
  | VObj i _, VObj j _ => Nat.eqb i j
  | VFun i _, VFun j _ => Nat.eqb i j
  | _, _ => false
  end.

(** Own-property lookup in a property list; a missing key reads [undefined]. *)
Fixpoint obj_get (k : string) (o : object) : value :=
  match o with
  | [] => VUndefined
  | (k', v) :: o' => if (k =? k')%string then v else obj_get k o'
  end.

Fixpoint obj_has (k : string) (o : object) : bool :=
  match o with
  | [] => false
  | (k', _) :: o' => (k =? k')%string || obj_has k o'
  end.

(** [o[k] = v]: an existing key keeps its place, a new key is appended. *)
Fixpoint obj_set (k : string) (v : value) (o : object) : object :=
  match o with
  | [] => [(k, v)]
  | (k', v') :: o' =>
      if (k =? k')%string then (k', v) :: o' else (k', v') :: obj_set k v o'
  end.

(** The own properties an object spread [...v] copies: none for
    [undefined] and [null] (and for the primitives modelled here). *)
Definition spread_fields (v : value) : object :=
  match v with
  | VObj _ fs | VFun _ fs => fs
  | _ => []
  end.

(** [{ ...o, ...src }] *)
Definition obj_assign (o src : object) : object :=
  fold_left (fun acc kv => obj_set (fst kv) (snd kv) acc) src o.

(** [v.k]: a [TypeError] ([None]) on [undefined] and [null]; primitives have
    none of the properties read here. *)
Definition get_prop (v : value) (k : string) : option value :=
  match v with
  | VUndefined | VNull => None
  | VObj _ fs | VFun _ fs => Some (obj_get k fs)
  | VBool _ | VNum _ | VStr _ => Some VUndefined
  end.

End JS.
Export JS.

(* ===================================================================== *)
(** * React nodes and the default placeholder *)
(* ===================================================================== *)

Module Placeholder.

(** What a render function returns. *)
Inductive rnode : Type :=
| RVal (v : value)                                (* null, false, 0, ... *)
| RDiv (key : string) (style : object) (child : rnode)
| RLoading (position : string)                    (* <Loading position=... /> *)
| RComp (type ref : value) (props : object).      (* <Component ref=... {...props} /> *)

Definition rn_truthy (n : rnode) : bool :=
  match n with RVal v => truthy v | _ => true end.

(** [a && <element>] and [node || other] *)
Definition rn_and (a : value) (n : rnode) : rnode :=
  if truthy a then n else RVal a.
Definition rn_or (n m : rnode) : rnode := if rn_truthy n then n else m.

(** A destructuring default [x = d]: used when the property is [undefined]. *)
Definition with_default (v d : value) : value :=
  match v with VUndefined => d | _ => v end.

(** [DefaultPlaceholder({ width, height, showLoadingForImport = false,
    placeholderStyle: style })]. *)
Definition DefaultPlaceholder (props : object) : rnode :=
  let width := obj_get "width" props in
  let height := obj_get "height" props in
  let showLoadingForImport :=
    with_default (obj_get "showLoadingForImport" props) (VBool false) in
  let style := obj_get "placeholderStyle" props in
  rn_or
    (rn_and height
       (RDiv "async-asm-placeholder"
          (obj_assign [("width", width); ("height", height)] (spread_fields style))
          (rn_and showLoadingForImport (RLoading "floating"))))
    (RVal VNull).

(** The values the [height] prop is typed to take that are "no height":
    absent, or the number zero. *)
Definition no_height (h : value) : Prop := h = VUndefined \/ h = VNum 0.

(** A supplied, non-zero height: a non-zero number or a non-empty string. *)
Definition nonzero_height (h : value) : Prop :=
  (exists n, h = VNum n /\ n <> 0%Z) \/ (exists s, h = VStr s /\ s <> "").

(** The size reading of the box taken literally: whatever else the props
    hold, a non-zero height gives a box whose style carries exactly the
    supplied width and height. *)
Definition sized_box_claim : Prop :=
  forall props : object,
    nonzero_height (obj_get "height" props) ->
    exists style child,
      DefaultPlaceholder props = RDiv "async-asm-placeholder" style child /\
      obj_get "width" style = obj_get "width" props /\
      obj_get "height" style = obj_get "height" props.

(** Sample props: [{ width: 100, height: 200, showLoadingForImport: true }]
    and [{ width: 100, height: 200, placeholderStyle: { height: 50 } }]. *)
Definition sized_props : object :=
  [("width", VNum 100); ("height", VNum 200);
   ("showLoadingForImport", VBool true)].

Definition restyled_props : object :=
  [("width", VNum 100); ("height", VNum 200);
   ("placeholderStyle", VObj 1 [("height", VNum 50)])].

End Placeholder.
Export Placeholder.

(* ===================================================================== *)
(** * The deferred module loader *)
(* ===================================================================== *)

Module Loader.

(** ** Promises and the microtask queue *)

Inductive settled : Type :=
| Pending
| Fulfilled (v : value)
| Rejected (e : value).

(** The callbacks this program passes to [.then]: only a fulfilment handler
    is ever given. *)
Inductive reaction : Type :=
| RSetComponent                 (* result => { component = result.default || result } *)
| RSetLoaded (inst flag : nat)  (* () => { if (isMounted) setLoaded(true) } *)
| RCaller (k : nat).            (* a caller's continuation on the promise preload() returned *)

Record promise_obj : Type := MkPromise {
  p_state : settled;
  p_reactions : list reaction;  (* registered while pending, in order *)
}.

Definition job : Type := (reaction * settled)%type.

(** ** Construction arguments *)

(** What a call of the factory does: it returns a fresh promise object, in
    state [st] ([Pending] promises are settled later by the environment), or
    it throws [e] before any promise is made. *)
Inductive outcome : Type :=
| Returned (st : settled)
| Threw (e : value).

(** [loadComponent : Promise<M> | (() => Promise<M>)].  A promise given
    directly is object 0 of the heap, in state [st] at construction; the
    [n]-th call of a factory does [f n]. *)
Inductive load_request : Type :=
| LPromise (st : settled)
| LFactory (f : nat -> outcome).

(** The built-in placeholder as a component value. *)
Definition DefaultPlaceholder_fn : value := VFun 0 [].

Record config : Type := MkConfig {
  loadComponent : load_request;
  placeholder : value;          (* a component, or null *)
}.

(** [AsyncEsmComponent(loadComponent, placeholder = DefaultPlaceholder)]:
    the default applies when the argument is [undefined]. *)
Definition AsyncEsmComponent (lc : load_request) (ph : value) : config :=
  MkConfig lc (with_default ph DefaultPlaceholder_fn).

(** ** Rendered instances *)

Record instance : Type := MkInstance {
  mounted : bool;
  loaded : bool;                 (* the useState cell *)
  pending_effect : option bool;  (* effect of the last render, not yet run;
                                    holds the [loaded] its closure captured *)
  cleanup : option nat;          (* isMounted cell the last run effect's
                                    cleanup will clear *)
}.

(** ** Observations *)

Inductive obs : Type :=
| OPreload (p : nat)              (* preload() returned promise p *)
| ORender (i : nat) (out : rnode) (* instance i rendered out *)
| OSetLoaded (i : nat)            (* setLoaded(true) delivered to instance i *)
| OCaller (k : nat) (o : settled) (* caller continuation k resumed *)
| OUnhandled (e : value)          (* unhandled promise rejection *)
| OThrown (e : value).            (* preload() or an effect threw e *)

(** ** The state of one loader and its host *)

Record state : Type := MkState {
  heap : list promise_obj;       (* promise objects by identity *)
  promise : option nat;          (* let promise: Promise<M> | undefined *)
  component : value;             (* let component: ComponentType<FullProps> *)
  factory_calls : nat;           (* calls of loadComponent() so far *)
  microtasks : list job;
  instances : list instance;
  flags : list bool;             (* the isMounted variables, one per effect run *)
  trace : list obs;              (* newest first *)
}.

Definition init (cfg : config) : state :=
  MkState
    (match loadComponent cfg with
     | LPromise st => [MkPromise st []]
     | LFactory _ => []
     end)
    None VUndefined 0 [] [] [] [].

Definition set_heap (h : list promise_obj) (s : state) : state :=
  MkState h (promise s) (component s) (factory_calls s) (microtasks s)
    (instances s) (flags s) (trace s).
Definition set_promise (p : option nat) (s : state) : state :=
  MkState (heap s) p (component s) (factory_calls s) (microtasks s)
    (instances s) (flags s) (trace s).
Definition set_component (c : value) (s : state) : state :=
  MkState (heap s) (promise s) c (factory_calls s) (microtasks s)
    (instances s) (flags s) (trace s).
Definition set_factory_calls (n : nat) (s : state) : state :=
  MkState (heap s) (promise s) (component s) n (microtasks s)
    (instances s) (flags s) (trace s).
Definition set_microtasks (q : list job) (s : state) : state :=
  MkState (heap s) (promise s) (component s) (factory_calls s) q
    (instances s) (flags s) (trace s).
Definition set_instances (l : list instance) (s : state) : state :=
  MkState (heap s) (promise s) (component s) (factory_calls s) (microtasks s)
    l (flags s) (trace s).
Definition set_flags (l : list bool) (s : state) : state :=
  MkState (heap s) (promise s) (component s) (factory_calls s) (microtasks s)
    (instances s) l (trace s).
Definition emit (o : obs) (s : state) : state :=
  MkState (heap s) (promise s) (component s) (factory_calls s) (microtasks s)
    (instances s) (flags s) (o :: trace s).

(** [p.then(r)]: registered if [p] is pending, queued as a microtask if [p]
    is already settled. *)
Definition then_ (p : nat) (r : reaction) (s : state) : state :=
  match heap s !! p with
  | Some (MkPromise Pending rs) =>
      set_heap (<[p := MkPromise Pending (rs ++ [r])]> (heap s)) s
  | Some (MkPromise o _) => set_microtasks (microtasks s ++ [(r, o)]) s
  | None => s
  end.

(** The environment settles promise [p]: its reactions are queued in
    registration order.  A settled promise never changes again. *)
Definition settle (p : nat) (o : settled) (s : state) : state :=
  match o, heap s !! p with
  | Pending, _ => s
  | _, Some (MkPromise Pending rs) =>
      set_microtasks (microtasks s ++ map (fun r => (r, o)) rs)
        (set_heap (<[p := MkPromise o []]> (heap s)) s)
  | _, _ => s
  end.

(** [loadComponent()]: the promise it returned ([inr]) or what it threw
    ([inl]). *)
Definition call_factory (f : nat -> outcome) (s : state)
    : state * (value + nat) :=
  match f (factory_calls s) with
  | Returned st =>
      (set_factory_calls (S (factory_calls s))
         (set_heap (heap s ++ [MkPromise st []]) s), inr (length (heap s)))
  | Threw e => (set_factory_calls (S (factory_calls s)) s, inl e)
  end.

(** [result.default || result]; [None] when reading [.default] throws. *)
Definition unwrap (result : value) : option value :=
  match get_prop result "default" with
  | Some d => Some (js_or d result)
  | None => None
  end.

Section WithConfig.

Variable cfg : config.

(** [waitForPromise()]: the promise it returns ([inr]), or what the factory
    threw ([inl]), in which case the assignment to [promise] and the rest of
    the body are not reached. *)
Definition waitForPromise (s : state) : state * (value + nat) :=
  let '(s1, r) :=
    match promise s with
    | Some p => (s, inr p)
    | None =>
        let '(s0, r) :=
          match loadComponent cfg with
          | LPromise _ => (s, inr 0)
          | LFactory f => call_factory f s
          end in
        match r with
        | inr p => (set_promise (Some p) s0, inr p)
        | inl e => (s0, inl e)
        end
    end in
  match r with
  | inr p =>
      (if negb (truthy (component s1)) then then_ p RSetComponent s1 else s1,
       inr p)
  | inl e => (s1, inl e)
  end.

(** [const Component = component || placeholder; return Component ?
    <Component ref={Component === component ? ref : null} {...props} /> : null]

    [props] are the props the host hands to the render function (it has
    already taken [ref] and [key] out of them). *)
Definition render (s : state) (props : object) (ref : value) : rnode :=
  let Component := js_or (component s) (placeholder cfg) in
  if truthy Component
  then RComp Component
         (if strict_eq Component (component s) then ref else VNull) props
  else RVal VNull.

(** [useState(component !== undefined)] on the first render. *)
Definition initial_loaded (s : state) : bool :=
  negb (strict_eq (component s) VUndefined).

(** [setLoaded(true)] reaching the host for instance [i]. *)
Definition setLoaded (i : nat) (s : state) : state :=
  emit (OSetLoaded i)
    (set_instances
       (alter (fun x => MkInstance (mounted x) true (pending_effect x) (cleanup x))
          i (instances s)) s).

(** Running one microtask. *)
Definition run_job (j : job) (s : state) : state :=
  match j with
  | (RCaller k, o) => emit (OCaller k o) s
  | (RSetComponent, Fulfilled result) =>
      match unwrap result with
      | Some c => set_component c s
      | None => emit (OUnhandled (VStr "TypeError")) s
      end
  | (RSetLoaded i f, Fulfilled _) =>
      match flags s !! f with
      | Some true => setLoaded i s
      | _ => s
      end
  | (_, Rejected e) => emit (OUnhandled e) s
  | (_, Pending) => s
  end.

(** The cleanup returned by an effect: [isMounted = false]. *)
Definition run_cleanup (c : option nat) (s : state) : state :=
  match c with
  | Some f => set_flags (<[f := false]> (flags s)) s
  | None => s
  end.

(** The body of the effect, for instance [i], with [ld] the [loaded] of the
    render that created it: the isMounted cell its cleanup will clear
    ([inr]), or what [waitForPromise()] threw ([inl]), in which case no
    callback is attached and no cleanup is returned. *)
Definition run_effect (i : nat) (ld : bool) (s : state)
    : state * (value + nat) :=
  let f := length (flags s) in
  let s1 := set_flags (flags s ++ [true]) s in
  if negb ld
  then
    match waitForPromise s1 with
    | (s', inr p) => (then_ p (RSetLoaded i f) s', inr f)
    | (s', inl e) => (s', inl e)
    end
  else (s1, inr f).

Definition is_preload_of (p : nat) (o : obs) : bool :=
  match o with OPreload q => Nat.eqb p q | _ => false end.

(** ** What can happen

    The callers of [preload], the environment that settles promises, the
    microtask queue and the host engine each contribute events, in any
    order.  Of the host only this is assumed: the component function runs
    once per render with the instance's current [loaded]; [useState]'s
    initial value is read on the first render only; the effect of a render
    is run, after the cleanup of the previous one, before the instance is
    rendered again or unmounted; unmounting runs the last cleanup; an
    unmounted instance is never rendered again.  An effect that throws has
    returned no cleanup; what becomes of its instance (React takes it down)
    is for the events that follow. *)
Inductive event : Type :=
| EvPreload                                  (* AsyncComponent.preload() *)
| EvThen (p k : nat)                         (* a caller chains k on a promise preload() returned *)
| EvSettle (p : nat) (o : settled)           (* the environment settles promise p *)
| EvMicrotask                                (* the microtask at the head of the queue runs *)
| EvMount (props : object) (ref : value)     (* a new instance is mounted and rendered *)
| EvRender (i : nat) (props : object) (ref : value)  (* instance i is rendered again *)
| EvEffects (i : nat)                        (* the effect of i's last render is flushed *)
| EvUnmount (i : nat).                       (* instance i is unmounted *)

Definition step (e : event) (s : state) : state :=
  match e with
  | EvPreload =>
      match waitForPromise s with
      | (s', inr p) => emit (OPreload p) s'
      | (s', inl e) => emit (OThrown e) s'
      end
  | EvThen p k =>
      if existsb (is_preload_of p) (trace s) then then_ p (RCaller k) s else s
  | EvSettle p o => settle p o s
  | EvMicrotask =>
      match microtasks s with
      | [] => s
      | j :: q => run_job j (set_microtasks q s)
      end
  | EvMount props ref =>
      let ld := initial_loaded s in
      emit (ORender (length (instances s)) (render s props ref))
        (set_instances (instances s ++ [MkInstance true ld (Some ld) None]) s)
  | EvRender i props ref =>
      match instances s !! i with
      | Some (MkInstance true ld None c) =>
          emit (ORender i (render s props ref))
            (set_instances (<[i := MkInstance true ld (Some ld) c]> (instances s)) s)
      | _ => s
      end
  | EvEffects i =>
      match instances s !! i with
      | Some (MkInstance true ld (Some captured) c) =>
          match run_effect i captured (run_cleanup c s) with
          | (s', inr f) =>
              set_instances
                (<[i := MkInstance true ld None (Some f)]> (instances s')) s'
          | (s', inl e) =>
              emit (OThrown e)
                (set_instances
                   (<[i := MkInstance true ld None None]> (instances s')) s')
          end
      | _ => s
      end
  | EvUnmount i =>
      match instances s !! i with
      | Some (MkInstance true ld None c) =>
          let s' := run_cleanup c s in
          set_instances (<[i := MkInstance false ld None c]> (instances s')) s'
      | _ => s
      end
  end.

(** Events are applied left to right. *)
Definition run (es : list event) (s : state) : state :=
  fold_left (fun st e => step e st) es s.

(** *** Module values

    [M = ComponentType<P> | { default: ComponentType<P> }]: a value of this
    type is a function or an object, either a component itself (a function,
    a class, or an exotic component object) or a record holding one under
    [default]. *)
Definition is_module (r : value) : bool :=
  match r with
  | VFun _ _ | VObj _ _ => true
  | _ => false
  end.

(** What is rendered while nothing is loaded: the placeholder without a
    ref, or nothing when the placeholder is [null]. *)
Definition placeholder_node (props : object) : rnode :=
  if truthy (placeholder cfg)
  then RComp (placeholder cfg) VNull props
  else RVal VNull.

(** The number of [setLoaded] calls that reached instance [i]. *)
Definition is_setLoaded (i : nat) (o : obs) : bool :=
  match o with OSetLoaded j => Nat.eqb i j | _ => false end.

Fixpoint updates_to (i : nat) (tr : list obs) : nat :=
  match tr with
  | [] => 0
  | o :: tr' => (if is_setLoaded i o then 1 else 0) + updates_to i tr'
  end.

(** [preload()] has been called, its promise has been fulfilled with [r],
    and the fulfilment has been delivered: the microtask queue has drained,
    or a caller that chained on the returned promise has been resumed. *)
Definition preload_resolved (s : state) (r : value) : Prop :=
  exists p,
    promise s = Some p /\
    (exists rs, heap s !! p = Some (MkPromise (Fulfilled r) rs)) /\
    (microtasks s = [] \/ exists k, In (OCaller k (Fulfilled r)) (trace s)).

(** ** Invariants of the reachable states *)

(** A promise on which a module may still arrive. *)
Definition live (st : settled) : bool :=
  match st with
  | Pending => true
  | Fulfilled r => truthy r
  | Rejected _ => false
  end.

(** In a FIFO sequence of reactions, the loader's own [RSetComponent] comes
    before any caller continuation. *)
Fixpoint guarded (l : list reaction) : bool :=
  match l with
  | [] => false
  | RSetComponent :: _ => true
  | RCaller _ :: _ => false
  | RSetLoaded _ _ :: l' => guarded l'
  end.

(** The calls of the factory so far: the last one returned the promise the
    loader holds, and every call before it, or every call when the loader
    holds no promise, threw. *)
Definition calls_ok (pr : option nat) (fc : nat) : Prop :=
  match loadComponent cfg with
  | LPromise _ => fc = 0
  | LFactory f =>
      match pr with
      | None => forall k, k < fc -> exists e, f k = Threw e
      | Some _ =>
          exists n, fc = S n /\ (forall k, k < n -> exists e, f k = Threw e) /\
                    exists st, f n = Returned st
      end
  end.

Definition core (pr : option nat) (h : list promise_obj) (c : value)
    (fc : nat) (mt : list job) (tr : list obs) : Prop :=
  match pr with
  | None =>
      calls_ok None fc /\ mt = [] /\ c = VUndefined /\
      (forall po, In po h -> p_reactions po = []) /\
      length h = match loadComponent cfg with LPromise _ => 1 | LFactory _ => 0 end /\
      (forall o, In o tr ->
         (exists i out, o = ORender i out) \/ exists e, o = OThrown e)
  | Some p =>
      p = 0 /\
      calls_ok (Some 0) fc /\
      exists st rs,
        h = [MkPromise st rs] /\
        (st <> Pending -> rs = []) /\
        (forall j, In j mt -> snd j = st /\ st <> Pending) /\
        (forall q, In (OPreload q) tr -> q = 0) /\
        (c <> VUndefined -> exists r, st = Fulfilled r /\ unwrap r = Some c) /\
        (truthy c = false -> live st = true ->
           guarded (rs ++ map fst mt) = true) /\
        (forall k r, In (OCaller k (Fulfilled r)) tr ->
           st = Fulfilled r /\ (truthy r = true -> truthy c = true))
  end.

Definition inv_core (s : state) : Prop :=
  core (promise s) (heap s) (component s) (factory_calls s) (microtasks s)
    (trace s).

(** Every reaction still to run. *)
Definition all_reactions (h : list promise_obj) (mt : list job) : list reaction :=
  flat_map p_reactions h ++ map fst mt.

Definition reactions_of (s : state) : list reaction :=
  all_reactions (heap s) (microtasks s).

(** The flags after a cleanup ran. *)
Definition clear_flag (c : option nat) (fl : list bool) : list bool :=
  match c with Some f => <[f := false]> fl | None => fl end.

Definition flags_ok (h : list promise_obj) (mt : list job)
    (ins : list instance) (fl : list bool) : Prop :=
  (forall i f, In (RSetLoaded i f) (all_reactions h mt) ->
     f < length fl /\
     (fl !! f = Some true ->
      exists ld pe, ins !! i = Some (MkInstance true ld pe (Some f)))) /\
  (forall i x f, ins !! i = Some x -> cleanup x = Some f -> f < length fl) /\
  (forall i j x y f, ins !! i = Some x -> ins !! j = Some y ->
     cleanup x = Some f -> cleanup y = Some f -> i = j).

Definition inv_flags (s : state) : Prop :=
  flags_ok (heap s) (microtasks s) (instances s) (flags s).

Definition Inv (s : state) : Prop := inv_core s /\ inv_flags s.

(** The first-mount property with "the promise resolves" read as the
    promise object being fulfilled, whether or not its reactions have run. *)
Definition first_mount_claim : Prop :=
  forall (es : list event) (p : nat) (r : value) (rs : list reaction)
         (props : object) (ref : value),
    let s := run es (init cfg) in
    In EvPreload es ->
    promise s = Some p ->
    heap s !! p = Some (MkPromise (Fulfilled r) rs) ->
    is_module r = true ->
    instances s = [] ->
    exists X,
      unwrap r = Some X /\
      trace (step (EvMount props ref) s) =
      ORender 0 (RComp X ref props) :: trace s.

End WithConfig.

(** ** A sample loader

    [AsyncEsmComponent(() => import('./Chart'))] with the default
    placeholder; the module is [{ default: Chart }]. *)
Definition Chart : value := VFun 7 [].
Definition chart_module : value := VObj 3 [("default", Chart)].
Definition lazy_chart : config :=
  AsyncEsmComponent (LFactory (fun _ => Returned Pending)) VUndefined.

(** A loader whose import fails before it makes a promise:
    [AsyncEsmComponent(() => { throw new Error('offline') })]. *)
Definition offline_chart : config :=
  AsyncEsmComponent (LFactory (fun _ => Threw (VStr "offline"))) VUndefined.

Definition some_props : object := [("width", VNum 100)].
Definition some_ref : value := VObj 9 [].

(** preload, then the import resolves and the microtask runs *)
Definition preload_and_resolve : list event :=
  [EvPreload; EvSettle 0 (Fulfilled chart_module); EvMicrotask].

(** [await Chart.preload()] *)
Definition awaited_preload : list event :=
  [EvPreload; EvThen 0 1; EvSettle 0 (Fulfilled chart_module);
   EvMicrotask; EvMicrotask].

(** renders and preloads mixed *)
Definition busy_run : list event :=
  [EvPreload; EvMount some_props some_ref; EvEffects 0; EvPreload;
   EvSettle 0 (Fulfilled chart_module); EvMicrotask; EvPreload; EvMicrotask;
   EvMicrotask; EvRender 0 some_props some_ref; EvEffects 0].

(** the import fails after an instance was mounted *)
Definition failed_import : list event :=
  [EvMount some_props some_ref; EvEffects 0;
   EvSettle 0 (Rejected (VStr "ChunkLoadError"))].

(** two instances are mounted, the first is unmounted before the import
    resolves *)
Definition two_mounted : list event :=
  [EvMount some_props some_ref; EvEffects 0; EvMount [] VNull; EvEffects 1].

End Loader.

(* ===================================================================== *)
(** * Dashboard-info persistence thunks *)
(* ===================================================================== *)

Module DashboardInfo.

(** ** Effects of a thunk

    A thunk dispatches actions and issues HTTP requests, in order, and its
    promise is finally resolved or rejected: a writer over the effects it
    performed, with an error. *)

Record request : Type := MkRequest {
  req_method : string;
  req_dashboard : value;     (* the id in `/api/v1/dashboard/${id}` *)
  req_payload : object;
}.

Inductive effect : Type :=
| Dispatch (action : object)
| Http (r : request).

(** [inl e]: thrown [e]. *)
Definition M (A : Type) : Type := (list effect * (value + A))%type.

Definition ret {A} (a : A) : M A := ([], inr a).
Definition throw {A} (e : value) : M A := ([], inl e).

Definition bind {A B} (m : M A) (k : A -> M B) : M B :=
  match m with
  | (t, inl e) => (t, inl e)
  | (t, inr a) => let '(t', r) := k a in (t ++ t', r)
  end.

(** [try { m } catch (e) { h e }] *)
Definition try_catch {A} (m : M A) (h : value -> M A) : M A :=
  match m with
  | (t, inl e) => let '(t', r) := h e in (t ++ t', r)
  | (t, inr a) => (t, inr a)
  end.

Definition dispatch (a : object) : M unit := ([Dispatch a], inr tt).

Notation "x <- m ;; k" := (bind m (fun x => k))
  (at level 62, m at level 60, right associativity).
Notation "m ;;; k" := (bind m (fun _ => k))
  (at level 62, right associativity).

Definition TypeError : value := VStr "TypeError".
Definition SyntaxError : value := VStr "SyntaxError".

(** [v.k] inside a thunk: throws on [undefined] and [null]. *)
Definition prop (v : value) (k : string) : M value :=
  match get_prop v k with
  | Some x => ret x
  | None => throw TypeError
  end.

(** ** Action types and creators *)

Definition DASHBOARD_INFO_UPDATED := "DASHBOARD_INFO_UPDATED".
Definition DASHBOARD_INFO_FILTERS_CHANGED := "DASHBOARD_INFO_FILTERS_CHANGED".
Definition SAVE_CHART_CONFIG_BEGIN := "SAVE_CHART_CONFIG_BEGIN".
Definition SAVE_CHART_CONFIG_COMPLETE := "SAVE_CHART_CONFIG_COMPLETE".
Definition SAVE_CHART_CONFIG_FAIL := "SAVE_CHART_CONFIG_FAIL".
Definition SET_FILTER_BAR_ORIENTATION := "SET_FILTER_BAR_ORIENTATION".
Definition SET_CROSS_FILTERS_ENABLED := "SET_CROSS_FILTERS_ENABLED".
Definition SET_DASHBOARD_THEME := "SET_DASHBOARD_THEME".

(** Objects built by this module get identity 0: nothing here compares
    them. *)
Definition dashboardInfoChanged (newInfo : object) : object :=
  [("type", VStr DASHBOARD_INFO_UPDATED); ("newInfo", VObj 0 newInfo)].

Definition nativeFiltersConfigChanged (newInfo : object) : object :=
  [("type", VStr DASHBOARD_INFO_FILTERS_CHANGED); ("newInfo", VObj 0 newInfo)].

Definition chart_config_action (type : string) (cc gcc : value) : object :=
  [("type", VStr type); ("chartConfiguration", cc);
   ("globalChartConfiguration", gcc)].

Definition setFilterBarOrientation (filterBarOrientation : value) : object :=
  [("type", VStr SET_FILTER_BAR_ORIENTATION);
   ("filterBarOrientation", filterBarOrientation)].

Definition setCrossFiltersEnabled (crossFiltersEnabled : value) : object :=
  [("type", VStr SET_CROSS_FILTERS_ENABLED);
   ("crossFiltersEnabled", crossFiltersEnabled)].

Definition setDashboardTheme (theme : value) : object :=
  [("type", VStr SET_DASHBOARD_THEME); ("theme", theme)].

Section Thunks.

(** ** What the thunks import *)

(** [makeApi({ method, endpoint })(payload)]: the answer of the server,
    a response or a thrown error. *)
Variable http : request -> value + value.
(** [JSON.stringify] and [JSON.parse] ([None]: a thrown SyntaxError). *)
Variable JSON_stringify : object -> string.
Variable JSON_parse : value -> option value.
(** [t], [addDangerToast], [onSave], [getErrorText] (awaited; it resolves),
    and the string a template literal makes of a value. *)
Variable t : string -> string.
Variable addDangerToast : string -> object.
Variable onSave : value -> object.
Variable getErrorText : value -> string -> string.
Variable to_string : value -> string.

(** [getState().dashboardInfo] *)
Record dashboard_info : Type := MkInfo { id : value; metadata : value }.

Definition updateDashboard (i : value) (payload : object) : M value :=
  ([Http (MkRequest "PUT" i payload)],
   match http (MkRequest "PUT" i payload) with
   | inl e => inl e
   | inr response => inr response
   end).

Definition parse (v : value) : M value :=
  match JSON_parse v with
  | Some x => ret x
  | None => throw SyntaxError
  end.

(** [a ?? m.k], the right operand evaluated only when needed. *)
Definition coalesce_prop (a m : value) (k : string) : M value :=
  if nullish a then prop m k else ret a.

Definition saveChartConfiguration
    (chartConfiguration globalChartConfiguration : value)
    (info : dashboard_info) : M unit :=
  dispatch (chart_config_action SAVE_CHART_CONFIG_BEGIN
              chartConfiguration globalChartConfiguration) ;;;
  try_catch
    (cc <- coalesce_prop chartConfiguration (metadata info)
             "chart_configuration" ;;
     gcc <- coalesce_prop globalChartConfiguration (metadata info)
              "global_chart_configuration" ;;
     response <-
       updateDashboard (id info)
         [("json_metadata",
           VStr (JSON_stringify
                   (obj_set "global_chart_configuration" gcc
                      (obj_set "chart_configuration" cc
                         (spread_fields (metadata info))))))] ;;
     result <- prop response "result" ;;
     json_metadata <- prop result "json_metadata" ;;
     parsed <- parse json_metadata ;;
     dispatch (dashboardInfoChanged [("metadata", parsed)]) ;;;
     dispatch (chart_config_action SAVE_CHART_CONFIG_COMPLETE
                 chartConfiguration globalChartConfiguration))
    (fun err =>
       dispatch (chart_config_action SAVE_CHART_CONFIG_FAIL
                   chartConfiguration globalChartConfiguration) ;;;
       dispatch (addDangerToast (t "Failed to save cross-filter scoping"))).

(** The handler the three other thunks share, clause for clause:
    [catch (errorObject) { const errorText = await getErrorText(errorObject,
    'dashboard'); dispatch(addDangerToast(errorText)); throw errorObject; }] *)
Definition toast_and_rethrow (errorObject : value) : M unit :=
  dispatch (addDangerToast (getErrorText errorObject "dashboard")) ;;;
  throw errorObject.

(** [if (lastModifiedTime) dispatch(onSave(lastModifiedTime))] *)
Definition save_time (lastModifiedTime : value) : M unit :=
  if truthy lastModifiedTime then dispatch (onSave lastModifiedTime) else ret tt.

Definition updateDashboardTheme (themeId : value) (info : dashboard_info)
    : M unit :=
  try_catch
    (response <- updateDashboard (id info) [("theme_id", themeId)] ;;
     (if strict_eq themeId VNull
      then dispatch (setDashboardTheme VNull)
      else
        result <- prop response "result" ;;
        theme <- prop result "theme" ;;
        if truthy theme
        then dispatch (setDashboardTheme theme)
        else dispatch (setDashboardTheme
                         (VObj 0 [("id", themeId);
                                  ("name", VStr ("Theme " ++ to_string themeId))]))) ;;;
     lastModifiedTime <- prop response "last_modified_time" ;;
     save_time lastModifiedTime)
    toast_and_rethrow.

Definition saveFilterBarOrientation (orientation : value)
    (info : dashboard_info) : M unit :=
  try_catch
    (response <-
       updateDashboard (id info)
         [("json_metadata",
           VStr (JSON_stringify
                   (obj_set "filter_bar_orientation" orientation
                      (spread_fields (metadata info)))))] ;;
     updatedDashboard <- prop response "result" ;;
     lastModifiedTime <- prop response "last_modified_time" ;;
     json_metadata <- prop updatedDashboard "json_metadata" ;;
     (if truthy json_metadata
      then
        parsed <- parse json_metadata ;;
        o <- prop parsed "filter_bar_orientation" ;;
        if truthy o then dispatch (setFilterBarOrientation o) else ret tt
      else ret tt) ;;;
     save_time lastModifiedTime)
    toast_and_rethrow.

Definition saveCrossFiltersSetting (crossFiltersEnabled : value)
    (info : dashboard_info) : M unit :=
  try_catch
    (response <-
       updateDashboard (id info)
         [("json_metadata",
           VStr (JSON_stringify
                   (obj_set "cross_filters_enabled" crossFiltersEnabled
                      (spread_fields (metadata info)))))] ;;
     updatedDashboard <- prop response "result" ;;
     lastModifiedTime <- prop response "last_modified_time" ;;
     json_metadata <- prop updatedDashboard "json_metadata" ;;
     (if truthy json_metadata
      then
        parsed <- parse json_metadata ;;
        enabled <- prop parsed "cross_filters_enabled" ;;
        dispatch (setCrossFiltersEnabled enabled)
      else ret tt) ;;;
     save_time lastModifiedTime)
    toast_and_rethrow.

End Thunks.

(** ** A sample environment *)

Definition saved_response : value :=
  VObj 1 [("result", VObj 2 [("json_metadata", VStr "{}")]);
          ("last_modified_time", VNum 5)].
Definition server_ok (r : request) : value + value := inr saved_response.
Definition server_down (r : request) : value + value :=
  inl (VStr "Network error").
Definition stringify_any (o : object) : string := "{...}".
Definition parse_any (v : value) : option value := Some (VObj 3 []).
Definition toast_action (text : string) : object :=
  [("type", VStr "ADD_TOAST"); ("text", VStr text)].
Definition on_save_action (time : value) : object :=
  [("type", VStr "ON_SAVE"); ("lastModifiedTime", time)].
Definition error_text (e : value) (source : string) : string :=
  "Sorry, an error occurred".
Definition show_number (v : value) : string := "7".
Definition sample_info : dashboard_info :=
  MkInfo (VNum 12) (VObj 4 [("color_scheme", VStr "d3")]).

End DashboardInfo.

(* ===================================================================== *)
(** * Further notions: edges of the placeholder, life of an instance, effects of a thunk *)
(* ===================================================================== *)

Module PlaceholderEdges.

(** The keys of a property list; an object has each key once. *)
Definition keys (o : object) : list string := map fst o.

End PlaceholderEdges.

Module LoaderLife.
Import Loader.

(** The loader's promise has not been fulfilled (it is unset, pending or
    rejected). *)
Definition unfulfilled (s : state) : Prop :=
  forall p r rs, promise s = Some p ->
    heap s !! p <> Some (MkPromise (Fulfilled r) rs).

(** Some promise object has been rejected. *)
Definition is_rejected (po : promise_obj) : bool :=
  match p_state po with Rejected _ => true | _ => false end.

Definition failed (s : state) : bool := existsb is_rejected (heap s).

(** What keeps a mounted instance waiting for the right callback:
    - an effect not yet run was created by a render that saw [loaded] no
      later than now;
    - the isMounted cell of a mounted instance's last effect is still set;
    - a mounted instance that is not loaded, and whose effect has run, has
      its [setLoaded] callback registered or queued, unless the promise
      was rejected. *)
Definition live_ok (s : state) : Prop :=
  (forall i x cap, instances s !! i = Some x ->
     pending_effect x = Some cap -> loaded x = false -> cap = false) /\
  (forall i x f, instances s !! i = Some x ->
     mounted x = true -> cleanup x = Some f -> flags s !! f = Some true) /\
  (forall i x f, instances s !! i = Some x ->
     mounted x = true -> loaded x = false -> cleanup x = Some f ->
     failed s = false -> In (RSetLoaded i f) (reactions_of s)).

(** ** More sample runs *)

(** a loader handed the promise itself, with no placeholder *)
Definition eager_chart : config := AsyncEsmComponent (LPromise Pending) VNull.

(** two instances are mounted, then the import resolves *)
Definition mounted_then_resolved : list event :=
  two_mounted ++ [EvSettle 0 (Fulfilled chart_module)].

(** the import resolves to nothing *)
Definition empty_import : list event :=
  [EvPreload; EvSettle 0 (Fulfilled VUndefined)].

End LoaderLife.

Module ThunkEffects.
Import DashboardInfo.

(** The HTTP requests among the effects, in order. *)
Definition requests (tr : list effect) : list request :=
  flat_map (fun e => match e with Http r => [r] | Dispatch _ => [] end) tr.

(** ** More of the sample environment *)

(** the server's metadata says VERTICAL *)
Definition parse_echo (v : value) : option value :=
  Some (VObj 5 [("filter_bar_orientation", VStr "VERTICAL")]).

(** the request the sample chart-configuration call sends *)
Definition sample_request : request :=
  MkRequest "PUT" (VNum 12) [("json_metadata", VStr "{...}")].

(** a dashboard whose metadata has not been loaded *)
Definition blank_info : dashboard_info := MkInfo (VNum 12) VUndefined.

End ThunkEffects.

(* ===================================================================== *)
(** * Properties of the default placeholder *)
(* ===================================================================== *)

Module PlaceholderFacts.

(** ** Property lists *)

Lemma obj_get_set k k' v o :
  obj_get k (obj_set k' v o) = if (k =? k')%string then v else obj_get k o.
Proof.
  induction o as [|[k0 v0] o IH]; simpl.
  - reflexivity.
  - destruct (String.eqb_spec k' k0) as [->|Hne]; simpl.
    + destruct (k =? k0)%string; reflexivity.
    + rewrite IH. destruct (String.eqb_spec k k0) as [->|Hne'].
      * destruct (String.eqb_spec k0 k'); [congruence | reflexivity].
      * reflexivity.
Qed.

Lemma obj_get_assign k o src :
  obj_has k src = false -> obj_get k (obj_assign o src) = obj_get k o.
Proof.
  unfold obj_assign. revert o.
  induction src as [|[k0 v0] src IH]; intros o; simpl; [reflexivity|].
  intros [Hk Hs]%orb_false_iff. rewrite IH by assumption.
  rewrite obj_get_set, Hk. reflexivity.
Qed.

Lemma nonzero_height_truthy h : nonzero_height h -> truthy h = true.
Proof.
  intros [(n & -> & Hn) | (s & -> & Hs)]; simpl.
  - apply negb_true_iff, Z.eqb_neq, Hn.
  - apply negb_true_iff, String.eqb_neq, Hs.
Qed.

Lemma no_height_falsy h : no_height h -> truthy h = false.
Proof. intros [-> | ->]; reflexivity. Qed.

(** Claim C7 (as amended).  With no height (absent, or 0) the default
    placeholder renders nothing.  With a non-zero height it renders one box
    whose style is [{ width, height }] overlaid with the entries of
    [placeholderStyle]: the box has exactly the supplied width and height
    whenever [placeholderStyle] sets neither.  With
    [showLoadingForImport = true] the box holds the loading indicator. *)
Theorem default_placeholder_box (props : object) :
  let width := obj_get "width" props in
  let height := obj_get "height" props in
  let overrides := spread_fields (obj_get "placeholderStyle" props) in
  (no_height height -> DefaultPlaceholder props = RVal VNull) /\
  (nonzero_height height ->
   exists style child,
     DefaultPlaceholder props = RDiv "async-asm-placeholder" style child /\
     style = obj_assign [("width", width); ("height", height)] overrides /\
     (obj_has "width" overrides = false -> obj_get "width" style = width) /\
     (obj_has "height" overrides = false -> obj_get "height" style = height) /\
     (obj_get "showLoadingForImport" props = VBool true ->
      child = RLoading "floating")).
Proof.
  intros width height overrides. unfold DefaultPlaceholder. fold width height overrides.
  split.
  - intros H%no_height_falsy. unfold rn_and, rn_or. rewrite H. simpl. rewrite H.
    reflexivity.
  - intros H%nonzero_height_truthy. unfold rn_or, rn_and. rewrite !H. simpl.
    eexists _, _. split; [reflexivity|]. split; [reflexivity|].
    split; [|split].
    + intros Ho. rewrite obj_get_assign by assumption. reflexivity.
    + intros Ho. rewrite obj_get_assign by assumption. reflexivity.
    + intros ->. reflexivity.
Qed.

Lemma default_placeholder_box_witness :
  nonzero_height (obj_get "height" sized_props) /\
  exists style child,
    DefaultPlaceholder sized_props = RDiv "async-asm-placeholder" style child /\
    style =
      obj_assign
        [("width", obj_get "width" sized_props);
         ("height", obj_get "height" sized_props)]
        (spread_fields (obj_get "placeholderStyle" sized_props)) /\
    (obj_has "width" (spread_fields (obj_get "placeholderStyle" sized_props))
       = false ->
     obj_get "width" style = obj_get "width" sized_props) /\
    (obj_has "height" (spread_fields (obj_get "placeholderStyle" sized_props))
       = false ->
     obj_get "height" style = obj_get "height" sized_props) /\
    (obj_get "showLoadingForImport" sized_props = VBool true ->
     child = RLoading "floating").
Proof.
  assert (H : nonzero_height (obj_get "height" sized_props)).
  { left. exists 200%Z. split; [reflexivity | discriminate]. }
  split; [exact H|].
  apply (proj2 (default_placeholder_box sized_props) H).
Defined.

(** With [placeholderStyle = { height: 50 }] the box is 50 high although a
    height of 200 was supplied: the entries of [placeholderStyle] are spread
    last and win. *)
Lemma sized_box_claim_fails :
  DefaultPlaceholder restyled_props =
    RDiv "async-asm-placeholder" [("width", VNum 100); ("height", VNum 50)]
      (RVal (VBool false)) /\
  ~ sized_box_claim.
Proof.
  split; [reflexivity|]. intros H.
  destruct (H restyled_props) as (style & child & Hd & _ & Hh).
  - left. exists 200%Z. split; [reflexivity | discriminate].
  - injection Hd as <- <-. discriminate Hh.
Qed.

End PlaceholderFacts.

(* ===================================================================== *)
(** * Properties of the loader *)
(* ===================================================================== *)

Module LoaderFacts.

Import Loader.

Lemma unwrap_defined r c : unwrap r = Some c -> c <> VUndefined.
Proof.
  unfold unwrap, js_or.
  destruct r; simpl; try discriminate; intros H; injection H as <-;
    try discriminate;
    match goal with |- (if ?b then _ else _) <> _ => destruct b eqn:E end;
    try discriminate; intros H; rewrite H in E; discriminate.
Qed.

Lemma unwrap_module r :
  truthy r = true -> exists c, unwrap r = Some c /\ truthy c = true.
Proof.
  unfold unwrap, js_or. intros H.
  destruct r; simpl in *; try discriminate; eauto;
    match goal with |- context [if ?b then _ else _] => destruct b eqn:E end;
    eauto.
Qed.

Lemma is_module_truthy r : is_module r = true -> truthy r = true.
Proof. destruct r; simpl; auto; discriminate. Qed.

Lemma guarded_app l l' : guarded l = true -> guarded (l ++ l') = true.
Proof.
  induction l as [|[] l IH]; simpl; intros H; try discriminate; auto.
Qed.

Lemma map_fst_tag (o : settled) (rs : list reaction) :
  map fst (map (fun r => (r, o)) rs) = rs.
Proof. induction rs; simpl; congruence. Qed.

Section Invariants.

Variable cfg : config.

Ltac break_state s :=
  destruct s as [h pr c fc mt ins fl tr]; simpl in *.

Ltac core_some st rs :=
  split; [reflexivity|]; split; [first [assumption | reflexivity]|]; exists st, rs;
  split; [reflexivity|]; split; [|split; [|split; [|split; [|split]]]].

Ltac core_easy :=
  try solve
    [ auto | eauto | discriminate | intros; discriminate
    | intros ? [|]; [discriminate | auto]
    | intros ? ? [|]; [discriminate | eauto] ].

Lemma no_jobs_pending (mt : list job) :
  (forall j, In j mt -> snd j = Pending /\ Pending <> Pending) -> mt = [].
Proof.
  destruct mt as [|j mt]; [reflexivity|]. intros H.
  destruct (H j) as [_ Hn]; [left; reflexivity | congruence].
Qed.

Lemma inv_core_then r s :
  promise s = Some 0 -> inv_core cfg s -> inv_core cfg (then_ 0 r s).
Proof.
  unfold inv_core, then_. break_state s. intros -> H.
  destruct H as (_ & Hfc & st & rs & -> & Hrs & Hj & Hq & Hc & Hg & Ho).
  simpl. destruct st; simpl.
  - pose proof (no_jobs_pending _ Hj) as ->.
    core_some Pending (rs ++ [r]); try assumption.
    + congruence.
    + intros Ht _. simpl in *. rewrite app_nil_r in *. apply guarded_app. auto.
  - core_some (Fulfilled v) rs; try assumption.
    + intros j [Hin | Hin]%in_app_or; [auto|].
      destruct Hin as [<- | []]. split; [reflexivity | discriminate].
    + intros Ht Hl. rewrite map_app, app_assoc. apply guarded_app. auto.
  - core_some (Rejected e) rs; try assumption.
    + intros j [Hin | Hin]%in_app_or; [auto|].
      destruct Hin as [<- | []]. split; [reflexivity | discriminate].
    + intros Ht Hl. discriminate.
Qed.

Lemma then_frame p r s :
  promise (then_ p r s) = promise s /\ component (then_ p r s) = component s /\
  factory_calls (then_ p r s) = factory_calls s /\
  instances (then_ p r s) = instances s /\ flags (then_ p r s) = flags s /\
  trace (then_ p r s) = trace s.
Proof.
  unfold then_. destruct (heap s !! p) as [[[] ?]|]; simpl; auto 10.
Qed.

Lemma wait_frame s :
  component (fst (waitForPromise cfg s)) = component s /\
  instances (fst (waitForPromise cfg s)) = instances s /\
  flags (fst (waitForPromise cfg s)) = flags s /\
  trace (fst (waitForPromise cfg s)) = trace s.
Proof.
  unfold waitForPromise, call_factory.
  destruct (promise s) as [p|];
    [|destruct (loadComponent cfg) as [st|f];
      [|destruct (f (factory_calls s))]]; simpl;
    try match goal with |- context [if ?b then _ else _] => destruct b end;
    simpl;
    try match goal with |- context [then_ ?p ?r ?s] =>
      destruct (then_frame p r s) as (_ & -> & _ & -> & -> & ->) end;
    simpl; auto.
Qed.

Lemma singleton_heap (h : list promise_obj) :
  length h = 1 -> (forall po, In po h -> p_reactions po = []) ->
  exists st, h = [MkPromise st []].
Proof.
  destruct h as [|[st rs] [|? ?]]; simpl; try discriminate. intros _ H.
  exists st. specialize (H (MkPromise st rs) (or_introl eq_refl)). simpl in H. subst. reflexivity.
Qed.

Lemma inv_core_wait s :
  inv_core cfg s ->
  inv_core cfg (fst (waitForPromise cfg s)) /\
  ((snd (waitForPromise cfg s) = inr 0 /\
    promise (fst (waitForPromise cfg s)) = Some 0) \/
   (exists e, snd (waitForPromise cfg s) = inl e /\ promise s = None /\
              promise (fst (waitForPromise cfg s)) = None)).
Proof.
  intros H. unfold waitForPromise.
  destruct (promise s) as [p|] eqn:Hp.
  - assert (p = 0) as -> by (unfold inv_core in H; rewrite Hp in H; apply H).
    simpl. destruct (truthy (component s)); simpl.
    + auto.
    + split; [apply inv_core_then; assumption|]. left.
      split; [reflexivity|]. destruct (then_frame 0 RSetComponent s) as [-> _]. assumption.
  - unfold inv_core in H. rewrite Hp in H.
    destruct H as (Hfc & Hmt & Hc & Hr & Hlen & Htr).
    break_state s. subst.
    assert (Hno : forall q, In (OPreload q) tr -> q = 0).
    { intros q Hin. destruct (Htr _ Hin) as [(? & ? & ?) | (? & ?)]; discriminate. }
    assert (Hno' : forall k r, In (OCaller k (Fulfilled r)) tr ->
               False).
    { intros k r Hin. destruct (Htr _ Hin) as [(? & ? & ?) | (? & ?)]; discriminate. }
    unfold inv_core, then_, call_factory. unfold calls_ok in Hfc.
    destruct (loadComponent cfg) eqn:Hlc; simpl.
    + destruct (singleton_heap h Hlen Hr) as [st0 ->]. simpl.
      assert (Hk : calls_ok cfg (Some 0) fc) by (unfold calls_ok; rewrite Hlc; assumption).
      destruct st0; simpl; (split; [|auto]).
      * core_some Pending [RSetComponent]; simpl; auto; try congruence; try tauto.
        intros; exfalso; eauto.
      * core_some (Fulfilled v) (@nil reaction); simpl; auto; try congruence.
        -- intros j [<- | []]; split; [reflexivity | discriminate].
        -- intros; exfalso; eauto.
      * core_some (Rejected e) (@nil reaction); simpl; auto; try congruence.
        -- intros j [<- | []]; split; [reflexivity | discriminate].
        -- intros; exfalso; eauto.
    + destruct h; [|discriminate]. simpl.
      destruct (f fc) as [st0|e] eqn:Hf; simpl.
      * assert (Hk : calls_ok cfg (Some 0) (S fc)).
        { unfold calls_ok. rewrite Hlc. exists fc. eauto. }
        destruct st0; simpl; (split; [|auto]).
        -- core_some Pending [RSetComponent]; simpl; auto; try congruence; try tauto.
           intros; exfalso; eauto.
        -- core_some (Fulfilled v) (@nil reaction); simpl; auto; try congruence.
           ++ intros j [<- | []]; split; [reflexivity | discriminate].
           ++ intros; exfalso; eauto.
        -- core_some (Rejected e) (@nil reaction); simpl; auto; try congruence.
           ++ intros j [<- | []]; split; [reflexivity | discriminate].
           ++ intros; exfalso; eauto.
      * split; [|right; eauto].
        split; [|rewrite Hlc; auto 10].
        unfold calls_ok. rewrite Hlc. intros k Hk.
        destruct (Nat.eq_dec k fc) as [->|Hne]; [eauto|]. apply Hfc. lia.
Qed.

Lemma core_none_heap fc mt c h tr :
  core cfg None h c fc mt tr ->
  h = [] \/ exists st, h = [MkPromise st []].
Proof.
  intros (_ & _ & _ & Hr & Hlen & _).
  destruct (loadComponent cfg).
  - right. apply singleton_heap; assumption.
  - left. destruct h; [reflexivity | discriminate].
Qed.

Lemma inv_core_settle p o s : inv_core cfg s -> inv_core cfg (settle p o s).
Proof.
  unfold inv_core, settle. break_state s. intros H.
  destruct o as [|v|e]; [exact H| |].
  all: destruct pr as [p0|].
  all: try (destruct H as (-> & Hfc & st & rs & -> & Hrs & Hj & Hq & Hc & Hg & Ho);
      destruct p as [|p]; simpl;
       [destruct st as [|v0|e0]; simpl|];
       [|core_some (Fulfilled v0) rs; assumption
        |core_some (Rejected e0) rs; assumption
        |core_some st rs; assumption];
      pose proof (no_jobs_pending _ Hj) as ->; simpl).
  - core_some (Fulfilled v) (@nil reaction); auto.
    + intros j (r & <- & _)%in_map_iff. split; [reflexivity|discriminate].
    + intros Hn. destruct (Hc Hn) as (? & ? & _). discriminate.
    + simpl. rewrite map_fst_tag. intros. rewrite app_nil_r in Hg. auto.
    + intros k r Hin. destruct (Ho k r Hin). discriminate.
  - destruct (core_none_heap _ _ _ _ _ H) as [-> | [st ->]];
      destruct H as (Hfc & Hmt & Hc & Hr & Hlen & Htr); subst.
    + rewrite lookup_nil. repeat split; auto.
    + destruct p as [|p]; simpl; [destruct st|]; simpl; repeat split; auto.
      intros po [<- | []]. reflexivity.
  - core_some (Rejected e) (@nil reaction); auto.
    + intros j (r & <- & _)%in_map_iff. split; [reflexivity|discriminate].
    + intros Hn. destruct (Hc Hn) as (? & ? & _). discriminate.
    + discriminate.
    + intros k r Hin. destruct (Ho k r Hin). discriminate.
  - destruct (core_none_heap _ _ _ _ _ H) as [-> | [st ->]];
      destruct H as (Hfc & Hmt & Hc & Hr & Hlen & Htr); subst.
    + rewrite lookup_nil. repeat split; auto.
    + destruct p as [|p]; simpl; [destruct st|]; simpl; repeat split; auto.
      intros po [<- | []]. reflexivity.
Qed.

Lemma inv_core_job j q s :
  microtasks s = j :: q -> inv_core cfg s ->
  inv_core cfg (run_job j (set_microtasks q s)).
Proof.
  unfold inv_core. break_state s. intros -> H.
  destruct pr as [p0|]; [|destruct H as (_ & ? & _); discriminate].
  destruct H as (-> & Hfc & st & rs & -> & Hrs & Hj & Hq & Hc & Hg & Ho).
  destruct j as [r o].
  destruct (Hj (r, o) (or_introl eq_refl)) as [Ho' Hst]. simpl in Ho'. subst o.
  rewrite (Hrs Hst) in *. simpl in Hg.
  assert (Hj' : forall j, In j q -> snd j = st /\ st <> Pending)
    by (intros; apply Hj; right; assumption).
  destruct r as [|i f|k]; destruct st as [|res|e]; try congruence; simpl.
  - (* the loader's own callback *)
    destruct (unwrap res) as [c'|] eqn:Hu; simpl.
    + core_some (Fulfilled res) (@nil reaction); core_easy.
      * intros Ht Hl. destruct (unwrap_module _ Hl) as (c'' & Hu' & Ht').
        congruence.
      * intros k r Hin. destruct (Ho k r Hin) as [[= <-] _].
        split; [reflexivity|]. intros Hl.
        destruct (unwrap_module _ Hl) as (c'' & Hu' & Ht'). congruence.
    + core_some (Fulfilled res) (@nil reaction); core_easy.
      intros Ht Hl. destruct (unwrap_module _ Hl) as (c'' & Hu' & Ht').
      congruence.
  - core_some (Rejected e) (@nil reaction); core_easy.
  - assert (Hg' : truthy c = false -> truthy res = true ->
                  guarded ([] ++ map fst q) = true) by auto.
    destruct (fl !! f) as [[]|]; simpl;
      core_some (Fulfilled res) (@nil reaction); core_easy.
  - core_some (Rejected e) (@nil reaction); core_easy.
  - core_some (Fulfilled res) (@nil reaction); core_easy.
    + intros Ht Hl. specialize (Hg Ht Hl). discriminate.
    + intros k' r [[= <- <-]|Hin]; [|eauto].
      split; [reflexivity|]. intros Hl.
      destruct (truthy c) eqn:Ht; [reflexivity|].
      specialize (Hg eq_refl Hl). discriminate.
  - core_some (Rejected e) (@nil reaction); core_easy.
Qed.

Lemma core_render pr h c fc mt tr i out :
  core cfg pr h c fc mt tr -> core cfg pr h c fc mt (ORender i out :: tr).
Proof.
  destruct pr as [p|]; simpl.
  - intros (-> & Hfc & st & rs & -> & Hrs & Hj & Hq & Hc & Hg & Ho).
    core_some st rs; core_easy.
  - intros (Hfc & Hmt & Hc & Hr & Hlen & Htr). repeat split; auto.
    intros o [<- | Hin]; eauto.
Qed.

Lemma core_preload h c fc mt tr :
  core cfg (Some 0) h c fc mt tr ->
  core cfg (Some 0) h c fc mt (OPreload 0 :: tr).
Proof.
  intros (_ & Hfc & st & rs & -> & Hrs & Hj & Hq & Hc & Hg & Ho).
  core_some st rs; core_easy.
  intros q [[= <-] | Hin]; auto.
Qed.

Lemma existsb_preload p tr :
  existsb (is_preload_of p) tr = true -> In (OPreload p) tr.
Proof.
  intros (o & Hin & Ho)%existsb_exists. destruct o; try discriminate.
  apply Nat.eqb_eq in Ho. subst. assumption.
Qed.

Lemma preload_promise s p :
  inv_core cfg s -> In (OPreload p) (trace s) -> p = 0 /\ promise s = Some 0.
Proof.
  unfold inv_core. destruct (promise s) as [p0|].
  - intros (-> & _ & st & rs & _ & _ & _ & Hq & _) Hin. auto.
  - intros (_ & _ & _ & _ & _ & Htr) Hin.
    destruct (Htr _ Hin) as [(? & ? & ?) | (? & ?)]; discriminate.
Qed.

Lemma run_cleanup_frame c s :
  heap (run_cleanup c s) = heap s /\ promise (run_cleanup c s) = promise s /\
  component (run_cleanup c s) = component s /\
  factory_calls (run_cleanup c s) = factory_calls s /\
  microtasks (run_cleanup c s) = microtasks s /\
  instances (run_cleanup c s) = instances s /\
  trace (run_cleanup c s) = trace s.
Proof. destruct c; simpl; auto 10. Qed.

Lemma inv_core_ext s s' :
  promise s' = promise s -> heap s' = heap s -> component s' = component s ->
  factory_calls s' = factory_calls s -> microtasks s' = microtasks s ->
  trace s' = trace s -> inv_core cfg s -> inv_core cfg s'.
Proof. unfold inv_core. intros -> -> -> -> -> ->. auto. Qed.

Lemma core_thrown pr h c fc mt tr e :
  core cfg pr h c fc mt tr -> core cfg pr h c fc mt (OThrown e :: tr).
Proof.
  destruct pr as [p|]; simpl.
  - intros (-> & Hfc & st & rs & -> & Hrs & Hj & Hq & Hc & Hg & Ho).
    core_some st rs; core_easy.
  - intros (Hfc & Hmt & Hc & Hr & Hlen & Htr). repeat split; auto.
    intros o [<- | Hin]; eauto.
Qed.

Lemma inv_core_effect i ld s :
  inv_core cfg s -> inv_core cfg (fst (run_effect cfg i ld s)).
Proof.
  intros H. unfold run_effect. destruct ld; simpl.
  - revert H. apply inv_core_ext; reflexivity.
  - set (s1 := set_flags (flags s ++ [true]) s).
    assert (H1 : inv_core cfg s1) by (revert H; apply inv_core_ext; reflexivity).
    destruct (inv_core_wait s1 H1) as (Hw & [[Hp Hpr] | (e & Hp & _)]).
    + destruct (waitForPromise cfg s1) as [s' p]. simpl in *. subst p.
      simpl. apply inv_core_then; assumption.
    + destruct (waitForPromise cfg s1) as [s' p]. simpl in *. subst p.
      assumption.
Qed.

Lemma inv_core_step e s : inv_core cfg s -> inv_core cfg (step cfg e s).
Proof.
  intros H. destruct e as [|p k|p o| |props ref|i props ref|i|i]; cbn [step].
  - destruct (inv_core_wait s H) as (Hw & [[Hp Hpr] | (e & Hp & _)]).
    + destruct (waitForPromise cfg s) as [s' p]. simpl in *. subst p.
      unfold inv_core in *. simpl. rewrite Hpr in *. apply core_preload, Hw.
    + destruct (waitForPromise cfg s) as [s' p]. simpl in *. subst p.
      unfold inv_core in *. simpl. apply core_thrown, Hw.
  - destruct (existsb _ _) eqn:E; [|assumption].
    apply existsb_preload in E. destruct (preload_promise s p H E) as [-> Hp].
    apply inv_core_then; assumption.
  - apply inv_core_settle, H.
  - destruct (microtasks s) as [|j q] eqn:E; [assumption|].
    apply inv_core_job; assumption.
  - unfold inv_core in *. simpl. apply core_render, H.
  - destruct (instances s !! i) as [[[] ld [] c]|]; try assumption.
    unfold inv_core in *. simpl. apply core_render, H.
  - destruct (instances s !! i) as [[[] ld [cap|] c]|]; try assumption.
    assert (H1 : inv_core cfg (run_cleanup c s)).
    { destruct (run_cleanup_frame c s) as (? & ? & ? & ? & ? & ? & ?).
      revert H. apply inv_core_ext; assumption. }
    pose proof (inv_core_effect i cap _ H1) as H2.
    destruct (run_effect cfg i cap (run_cleanup c s)) as [s' [e|f]]; simpl in *.
    + unfold inv_core in *. simpl. apply core_thrown, H2.
    + revert H2. apply inv_core_ext; reflexivity.
  - destruct (instances s !! i) as [[[] ld [] c]|]; try assumption.
    destruct (run_cleanup_frame c s) as (? & ? & ? & ? & ? & ? & ?).
    revert H. apply inv_core_ext; assumption.
Qed.

(** *** The isMounted cells *)

Lemma in_flat_map_insert {A B} (f : A -> list B) (l : list A) p y x :
  In x (flat_map f (<[p:=y]> l)) -> In x (f y) \/ In x (flat_map f l).
Proof.
  revert p. induction l as [|a l IH]; intros p; simpl; [tauto|].
  destruct p as [|p]; simpl; rewrite !in_app_iff.
  - tauto.
  - intros [H | H]; [tauto|]. destruct (IH _ H); tauto.
Qed.

Lemma in_flat_map_lookup {A B} (f : A -> list B) (l : list A) p y x :
  l !! p = Some y -> In x (f y) -> In x (flat_map f l).
Proof.
  intros Hl Hx. apply in_flat_map. exists y. split; [|assumption].
  apply list_elem_of_In, list_elem_of_lookup. eauto.
Qed.

Lemma then_reactions p r s x :
  In x (reactions_of (then_ p r s)) -> x = r \/ In x (reactions_of s).
Proof.
  unfold reactions_of, all_reactions, then_.
  destruct (heap s !! p) as [[st rs]|] eqn:Hl; [|auto].
  destruct st; simpl; rewrite ?map_app, !in_app_iff; simpl.
  - intros [H | H]; [|auto].
    apply in_flat_map_insert in H. simpl in H. rewrite in_app_iff in H. simpl in H.
    destruct H as [[H | [H | []]] | H]; auto.
    right. left. eapply in_flat_map_lookup; eauto.
  - intros [H | [H | [H | []]]]; auto.
  - intros [H | [H | [H | []]]]; auto.
Qed.

Lemma settle_reactions p o s x :
  In x (reactions_of (settle p o s)) -> In x (reactions_of s).
Proof.
  unfold reactions_of, all_reactions, settle.
  destruct o; [auto| |];
    (destruct (heap s !! p) as [[[] rs]|] eqn:Hl; [|auto..];
     simpl; rewrite map_app, map_fst_tag, !in_app_iff;
     intros [H | [H | H]]; auto;
     [apply in_flat_map_insert in H; simpl in H; destruct H as [[] | H]; auto
     | left; eapply in_flat_map_lookup; eauto]).
Qed.

Lemma wait_reactions s x :
  In x (reactions_of (fst (waitForPromise cfg s))) ->
  x = RSetComponent \/ In x (reactions_of s).
Proof.
  unfold waitForPromise, call_factory.
  destruct (promise s) as [p|].
  - simpl. destruct (negb _); simpl; [apply then_reactions | auto].
  - destruct (loadComponent cfg) as [st|f];
      [|destruct (f (factory_calls s))]; simpl;
      first [ destruct (negb _); simpl;
              [intros [H | H]%then_reactions; [auto|] | intros H]
            | intros H ];
      right; revert H; unfold reactions_of, all_reactions; simpl;
      rewrite ?flat_map_app; simpl; rewrite ?app_nil_r; auto.
Qed.

Lemma wait_thrown s e :
  snd (waitForPromise cfg s) = inl e ->
  promise s = None /\
  fst (waitForPromise cfg s) = set_factory_calls (S (factory_calls s)) s /\
  exists f, loadComponent cfg = LFactory f /\ f (factory_calls s) = Threw e.
Proof.
  unfold waitForPromise, call_factory.
  destruct (promise s) as [p|]; [discriminate|].
  destruct (loadComponent cfg) as [st|f]; [discriminate|].
  destruct (f (factory_calls s)) as [st|e'] eqn:Hf; simpl; [discriminate|].
  intros [= ->]. eauto.
Qed.

Lemma flags_ok_reactions h mt h' mt' ins fl :
  (forall i f, In (RSetLoaded i f) (all_reactions h' mt') ->
               In (RSetLoaded i f) (all_reactions h mt)) ->
  flags_ok h mt ins fl -> flags_ok h' mt' ins fl.
Proof. intros Hsub (HA & HB & HC). split; [|split]; eauto. Qed.

Lemma flags_ok_setLoaded h mt ins fl i :
  flags_ok h mt ins fl ->
  flags_ok h mt
    (alter (fun x => MkInstance (mounted x) true (pending_effect x) (cleanup x))
       i ins) fl.
Proof.
  intros (HA & HB & HC).
  assert (Hlk : forall j y,
    alter (fun x => MkInstance (mounted x) true (pending_effect x) (cleanup x))
      i ins !! j = Some y ->
    exists x, ins !! j = Some x /\ cleanup x = cleanup y /\ mounted x = mounted y
              /\ pending_effect x = pending_effect y).
  { intros j y. destruct (decide (i = j)) as [->|Hne].
    - rewrite list_lookup_alter_eq. destruct (ins !! j) as [x|]; [|discriminate].
      simpl. intros [= <-]. eauto.
    - rewrite list_lookup_alter_ne by assumption. eauto. }
  split; [|split].
  - intros j f Hin. destruct (HA j f Hin) as [Hlt Hon]. split; [assumption|].
    intros Ht. destruct (Hon Ht) as (ld & pe & Hj).
    destruct (decide (i = j)) as [->|Hne].
    + rewrite list_lookup_alter_eq, Hj. simpl. eauto.
    + rewrite list_lookup_alter_ne by assumption. eauto.
  - intros j y f (x & Hx & Hc & _)%Hlk Hy. rewrite <- Hc in Hy. eauto.
  - intros j1 j2 y1 y2 f (x1 & Hx1 & Hc1 & _)%Hlk (x2 & Hx2 & Hc2 & _)%Hlk H1 H2.
    rewrite <- Hc1 in H1. rewrite <- Hc2 in H2. eauto.
Qed.

Lemma flags_ok_mount h mt ins fl ld pe :
  flags_ok h mt ins fl ->
  flags_ok h mt (ins ++ [MkInstance true ld pe None]) fl.
Proof.
  intros (HA & HB & HC).
  assert (Hlk : forall j y, (ins ++ [MkInstance true ld pe None]) !! j = Some y ->
                 cleanup y = None \/ ins !! j = Some y).
  { intros j y [H | [_ H]]%lookup_app_Some; [auto|].
    apply list_lookup_singleton_Some in H as [_ <-]. auto. }
  split; [|split].
  - intros j f Hin. destruct (HA j f Hin) as [Hlt Hon]. split; [assumption|].
    intros Ht. destruct (Hon Ht) as (ld' & pe' & Hj).
    exists ld', pe'. apply lookup_app_l_Some. assumption.
  - intros j y f [Hn | Hy]%Hlk Hc; [congruence | eauto].
  - intros j1 j2 y1 y2 f [Hn1 | Hy1]%Hlk [Hn2 | Hy2]%Hlk H1 H2;
      try congruence; eauto.
Qed.

(** Replacing instance [i] by one with the same cleanup handle. *)
Lemma flags_ok_same_cleanup h mt ins fl i x y :
  ins !! i = Some x -> cleanup y = cleanup x ->
  (mounted x = true -> mounted y = true) ->
  flags_ok h mt ins fl -> flags_ok h mt (<[i := y]> ins) fl.
Proof.
  intros Hi Hc Hm (HA & HB & HC).
  assert (Hlk : forall j z, <[i := y]> ins !! j = Some z ->
            exists z', ins !! j = Some z' /\ cleanup z' = cleanup z).
  { intros j z [(<- & <- & _) | [_ H]]%list_lookup_insert_Some; eauto. }
  split; [|split].
  - intros j f Hin. destruct (HA j f Hin) as [Hlt Hon]. split; [assumption|].
    intros Ht. destruct (Hon Ht) as (ld' & pe' & Hj).
    destruct (decide (i = j)) as [->|Hne].
    + rewrite list_lookup_insert_eq by (eapply lookup_lt_Some; eauto).
      rewrite Hj in Hi. injection Hi as <-. simpl in *.
      destruct y as [m l p c]. simpl in *. subst c. rewrite Hm by reflexivity. eauto.
    + rewrite list_lookup_insert_ne by assumption. eauto.
  - intros j z f (z' & Hz & Hcz)%Hlk Hf. rewrite <- Hcz in Hf. eauto.
  - intros j1 j2 z1 z2 f (z1' & Hz1 & Hc1)%Hlk (z2' & Hz2 & Hc2)%Hlk H1 H2.
    rewrite <- Hc1 in H1. rewrite <- Hc2 in H2. eauto.
Qed.

Lemma run_cleanup_flags c s : flags (run_cleanup c s) = clear_flag c (flags s).
Proof. destruct c; reflexivity. Qed.

Lemma length_clear_flag c fl : length (clear_flag c fl) = length fl.
Proof. destruct c; simpl; [apply length_insert | reflexivity]. Qed.

Lemma clear_flag_true c fl f :
  clear_flag c fl !! f = Some true -> fl !! f = Some true /\ c <> Some f.
Proof.
  destruct c as [g|]; simpl; [|split; [assumption | discriminate]].
  intros [(<- & ? & _) | [Hne H]]%list_lookup_insert_Some; [discriminate|].
  split; [assumption | congruence].
Qed.

Lemma flags_ok_unmount h mt ins fl i ld c :
  ins !! i = Some (MkInstance true ld None c) ->
  flags_ok h mt ins fl ->
  flags_ok h mt (<[i := MkInstance false ld None c]> ins) (clear_flag c fl).
Proof.
  intros Hi (HA & HB & HC).
  assert (Hlk : forall j z, <[i := MkInstance false ld None c]> ins !! j = Some z ->
            exists z', ins !! j = Some z' /\ cleanup z' = cleanup z).
  { intros j z [(<- & <- & _) | [_ H]]%list_lookup_insert_Some; eauto. }
  split; [|split]; rewrite ?length_clear_flag.
  - intros j f Hin. destruct (HA j f Hin) as [Hlt Hon]. split; [assumption|].
    intros [Ht Hc]%clear_flag_true. destruct (Hon Ht) as (ld' & pe' & Hj).
    destruct (decide (i = j)) as [->|Hne]; [congruence|].
    rewrite list_lookup_insert_ne by assumption. eauto.
  - intros j z f (z' & Hz & Hcz)%Hlk Hf. rewrite <- Hcz in Hf. eauto.
  - intros j1 j2 z1 z2 f (z1' & Hz1 & Hc1)%Hlk (z2' & Hz2 & Hc2)%Hlk H1 H2.
    rewrite <- Hc1 in H1. rewrite <- Hc2 in H2. eauto.
Qed.

Lemma flags_ok_effect h mt h' mt' ins fl i ld pe c :
  ins !! i = Some (MkInstance true ld pe c) ->
  (forall j f, In (RSetLoaded j f) (all_reactions h' mt') ->
     (j = i /\ f = length fl) \/ In (RSetLoaded j f) (all_reactions h mt)) ->
  flags_ok h mt ins fl ->
  flags_ok h' mt'
    (<[i := MkInstance true ld None (Some (length fl))]> ins)
    (clear_flag c fl ++ [true]).
Proof.
  intros Hi Hnew (HA & HB & HC).
  pose proof (lookup_lt_Some _ _ _ Hi) as Hlt.
  split; [|split]; rewrite ?length_app, ?length_clear_flag; simpl.
  - intros j f [[-> ->] | Hin]%Hnew.
    + split; [lia|]. intros _. rewrite list_lookup_insert_eq by assumption. eauto.
    + destruct (HA j f Hin) as [Hf Hon]. split; [lia|].
      rewrite lookup_app_l by (rewrite length_clear_flag; assumption).
      intros [Ht Hc]%clear_flag_true. destruct (Hon Ht) as (ld' & pe' & Hj).
      destruct (decide (i = j)) as [->|Hne]; [congruence|].
      rewrite list_lookup_insert_ne by assumption. eauto.
  - intros j z f [(<- & <- & _) | [_ H]]%list_lookup_insert_Some Hc.
    + injection Hc as <-. lia.
    + specialize (HB _ _ _ H Hc). lia.
  - intros j1 j2 z1 z2 f
      [(<- & <- & _) | [Hn1 H1]]%list_lookup_insert_Some
      [(<- & <- & _) | [Hn2 H2]]%list_lookup_insert_Some Hc1 Hc2; simpl in *.
    + reflexivity.
    + injection Hc1 as <-. specialize (HB _ _ _ H2 Hc2). lia.
    + injection Hc2 as <-. specialize (HB _ _ _ H1 Hc1). lia.
    + eauto.
Qed.

Lemma flags_ok_thrown h mt h' mt' ins fl i ld pe c :
  ins !! i = Some (MkInstance true ld pe c) ->
  (forall j f, In (RSetLoaded j f) (all_reactions h' mt') ->
     In (RSetLoaded j f) (all_reactions h mt)) ->
  flags_ok h mt ins fl ->
  flags_ok h' mt'
    (<[i := MkInstance true ld None None]> ins)
    (clear_flag c fl ++ [true]).
Proof.
  intros Hi Hsub (HA & HB & HC).
  pose proof (lookup_lt_Some _ _ _ Hi) as Hlt.
  split; [|split]; rewrite ?length_app, ?length_clear_flag; simpl.
  - intros j f Hin%Hsub.
    destruct (HA j f Hin) as [Hf Hon]. split; [lia|].
    rewrite lookup_app_l by (rewrite length_clear_flag; assumption).
    intros [Ht Hc]%clear_flag_true. destruct (Hon Ht) as (ld' & pe' & Hj).
    destruct (decide (i = j)) as [->|Hne]; [congruence|].
    rewrite list_lookup_insert_ne by assumption. eauto.
  - intros j z f [(<- & <- & _) | [_ H]]%list_lookup_insert_Some Hc.
    + discriminate.
    + specialize (HB _ _ _ H Hc). lia.
  - intros j1 j2 z1 z2 f
      [(<- & <- & _) | [Hn1 H1]]%list_lookup_insert_Some
      [(<- & <- & _) | [Hn2 H2]]%list_lookup_insert_Some Hc1 Hc2; simpl in *;
      try discriminate; eauto.
Qed.

Lemma settle_frame p o s :
  promise (settle p o s) = promise s /\ component (settle p o s) = component s /\
  factory_calls (settle p o s) = factory_calls s /\
  instances (settle p o s) = instances s /\ flags (settle p o s) = flags s /\
  trace (settle p o s) = trace s.
Proof.
  unfold settle. destruct o; [auto 10| |];
    destruct (heap s !! p) as [[[] ?]|]; simpl; auto 10.
Qed.

Lemma run_effect_spec i ld s :
  (snd (run_effect cfg i ld s) = inr (length (flags s)) \/
   exists e, snd (run_effect cfg i ld s) = inl e /\
     forall x, In x (reactions_of (fst (run_effect cfg i ld s))) ->
               In x (reactions_of s)) /\
  flags (fst (run_effect cfg i ld s)) = flags s ++ [true] /\
  instances (fst (run_effect cfg i ld s)) = instances s /\
  trace (fst (run_effect cfg i ld s)) = trace s /\
  (forall x, In x (reactions_of (fst (run_effect cfg i ld s))) ->
     x = RSetComponent \/ x = RSetLoaded i (length (flags s)) \/
     In x (reactions_of s)).
Proof.
  unfold run_effect. destruct ld; simpl.
  - auto 10.
  - set (s1 := set_flags (flags s ++ [true]) s).
    pose proof (wait_frame s1) as (_ & Hi & Hf & Ht).
    pose proof (wait_reactions s1) as Hr.
    pose proof (wait_thrown s1) as Hth.
    destruct (waitForPromise cfg s1) as [s' [e|p]]; simpl in *.
    + destruct (Hth e eq_refl) as (_ & -> & _).
      split; [right; exists e; split; [reflexivity | auto]|]. auto 10.
    + destruct (then_frame p (RSetLoaded i (length (flags s))) s')
        as (_ & _ & _ & -> & -> & ->).
      repeat split; auto.
      intros x [-> | [-> | H]%Hr]%then_reactions; auto.
Qed.

Lemma inv_flags_step e s : inv_flags s -> inv_flags (step cfg e s).
Proof.
  unfold inv_flags. intros H.
  destruct e as [|p k|p o| |props ref|i props ref|i|i]; cbn [step].
  - pose proof (wait_frame s) as (_ & Hi & Hf & _).
    pose proof (wait_reactions s) as Hr.
    destruct (waitForPromise cfg s) as [s' [e|p]]; simpl in *; rewrite Hi, Hf;
      (revert H; apply flags_ok_reactions;
       intros i f [[=] | Hin]%Hr; assumption).
  - destruct (existsb _ _); [|assumption].
    destruct (then_frame p (RCaller k) s) as (_ & _ & _ & -> & -> & _).
    revert H. apply flags_ok_reactions.
    intros i f [[=] | Hin]%then_reactions. assumption.
  - destruct (settle_frame p o s) as (_ & _ & _ & -> & -> & _).
    revert H. apply flags_ok_reactions. intros i f. apply settle_reactions.
  - destruct (microtasks s) as [|j q] eqn:E; [simpl; rewrite E; assumption|].
    assert (H' : flags_ok (heap s) q (instances s) (flags s)).
    { revert H. apply flags_ok_reactions. intros i f.
      unfold all_reactions. rewrite !in_app_iff. simpl. tauto. }
    destruct j as [[|i f|k] [|res|e]]; simpl; try assumption.
    + destruct (unwrap res); assumption.
    + destruct (flags s !! f) as [[]|]; try assumption.
      simpl. apply flags_ok_setLoaded. assumption.
  - simpl. apply flags_ok_mount. assumption.
  - destruct (instances s !! i) as [[[] ld [] c]|] eqn:Hi; try assumption.
    simpl. eapply flags_ok_same_cleanup; eauto.
  - destruct (instances s !! i) as [[[] ld [cap|] c]|] eqn:Hi; try assumption.
    pose proof (run_effect_spec i cap (run_cleanup c s)) as (Hf & Hfl & Hin & _ & Hr).
    destruct (run_cleanup_frame c s) as (Hh & _ & _ & _ & Hm & Hins & _).
    destruct (run_effect cfg i cap (run_cleanup c s)) as [s' [e|f]]; simpl in *.
    + destruct Hf as [[=] | (e' & _ & Hsub)].
      rewrite Hfl, Hin, !run_cleanup_flags, Hins.
      eapply flags_ok_thrown; [exact Hi| |exact H].
      intros j g Hjg%Hsub. unfold reactions_of in Hjg.
      rewrite Hh, Hm in Hjg. assumption.
    + destruct Hf as [[= ->] | (e' & [=] & _)].
      rewrite Hfl, Hin, !run_cleanup_flags, length_clear_flag, Hins.
      eapply flags_ok_effect; [exact Hi| |exact H].
      intros j g Hjg. apply Hr in Hjg as [[=] | [[= -> ->] | Hjg]].
      * left. rewrite run_cleanup_flags, length_clear_flag. auto.
      * right. unfold reactions_of in Hjg. rewrite Hh, Hm in Hjg. assumption.
  - destruct (instances s !! i) as [[[] ld [] c]|] eqn:Hi; try assumption.
    destruct (run_cleanup_frame c s) as (Hh & _ & _ & _ & Hm & Hins & _).
    simpl. rewrite Hh, Hm, Hins, run_cleanup_flags.
    apply flags_ok_unmount; assumption.
Qed.

Lemma Inv_init : Inv cfg (init cfg).
Proof.
  split.
  - unfold inv_core, init, core. simpl. split; [|split; [|split; [|split; [|split]]]]; auto.
    + unfold calls_ok. destruct (loadComponent cfg); [reflexivity | intros; lia].
    + destruct (loadComponent cfg); simpl; [|tauto].
      intros po [<- | []]. reflexivity.
    + destruct (loadComponent cfg); reflexivity.
    + intros o [].
  - unfold inv_flags, init, flags_ok, all_reactions. simpl.
    split; [|split].
    + destruct (loadComponent cfg); simpl; tauto.
    + intros i x f Hl. rewrite lookup_nil in Hl. discriminate.
    + intros i j x y f Hl. rewrite lookup_nil in Hl. discriminate.
Qed.

Lemma Inv_step e s : Inv cfg s -> Inv cfg (step cfg e s).
Proof. intros [H1 H2]. split; [apply inv_core_step | apply inv_flags_step]; assumption. Qed.

Lemma Inv_run es s : Inv cfg s -> Inv cfg (run cfg es s).
Proof.
  revert s. induction es as [|e es IH]; intros s H; simpl; [assumption|].
  apply IH, Inv_step, H.
Qed.

Lemma Inv_reachable es : Inv cfg (run cfg es (init cfg)).
Proof. apply Inv_run, Inv_init. Qed.

Lemma run_app es es' s : run cfg (es ++ es') s = run cfg es' (run cfg es s).
Proof. unfold run. apply fold_left_app. Qed.

(** *** What a step leaves alone *)

Lemma run_job_frame j s :
  promise (run_job j s) = promise s /\ heap (run_job j s) = heap s /\
  factory_calls (run_job j s) = factory_calls s /\
  microtasks (run_job j s) = microtasks s /\ flags (run_job j s) = flags s.
Proof.
  destruct j as [[|i f|k] [|res|e]]; simpl; auto;
    try (destruct (unwrap res); simpl; auto);
    try (destruct (flags s !! f) as [[]|]; simpl; auto).
Qed.

Lemma wait_promise s p :
  promise s = Some p ->
  promise (fst (waitForPromise cfg s)) = Some p /\
  factory_calls (fst (waitForPromise cfg s)) = factory_calls s /\
  snd (waitForPromise cfg s) = inr p.
Proof.
  intros Hp. unfold waitForPromise. rewrite Hp. simpl.
  destruct (negb _); simpl; auto.
  destruct (then_frame p RSetComponent s) as (-> & _ & -> & _). auto.
Qed.

Lemma run_effect_promise i ld s p :
  promise s = Some p ->
  promise (fst (run_effect cfg i ld s)) = Some p /\
  factory_calls (fst (run_effect cfg i ld s)) = factory_calls s.
Proof.
  intros Hp. unfold run_effect. destruct ld; simpl; [auto|].
  set (s1 := set_flags _ _).
  destruct (wait_promise s1 p Hp) as (H1 & H2 & H3).
  destruct (waitForPromise cfg s1) as [s' p']. simpl in *. subst p'. simpl.
  match goal with |- context [then_ ?a ?b ?c] =>
    destruct (then_frame a b c) as (-> & _ & -> & _) end. auto.
Qed.

Lemma step_promise e s p :
  promise s = Some p ->
  promise (step cfg e s) = Some p /\
  factory_calls (step cfg e s) = factory_calls s.
Proof.
  intros Hp.
  destruct e as [|q k|q o| |props ref|i props ref|i|i]; cbn [step].
  - destruct (wait_promise s p Hp) as (H1 & H2 & H3).
    destruct (waitForPromise cfg s) as [s' p']. simpl in *. subst p'. auto.
  - destruct (existsb _ _); [|auto].
    destruct (then_frame q (RCaller k) s) as (-> & _ & -> & _). auto.
  - destruct (settle_frame q o s) as (-> & _ & -> & _). auto.
  - destruct (microtasks s) as [|j q]; [auto|].
    destruct (run_job_frame j (set_microtasks q s)) as (-> & _ & -> & _). auto.
  - auto.
  - destruct (instances s !! i) as [[[] ld [] c]|]; auto.
  - destruct (instances s !! i) as [[[] ld [cap|] c]|]; auto.
    destruct (run_cleanup_frame c s) as (_ & Hp' & _ & Hf & _).
    rewrite <- Hp' in Hp. rewrite <- Hf.
    destruct (run_effect_promise i cap _ p Hp) as [H1 H2].
    destruct (run_effect cfg i cap (run_cleanup c s)) as [s' [e|f]]; auto.
  - destruct (instances s !! i) as [[[] ld [] c]|]; auto.
    destruct (run_cleanup_frame c s) as (_ & Hp' & _ & Hf & _).
    simpl. rewrite Hp', Hf. auto.
Qed.

(** A settled promise object never changes again. *)
Lemma then_settled q r s p st rs :
  heap s !! p = Some (MkPromise st rs) -> st <> Pending ->
  heap (then_ q r s) !! p = Some (MkPromise st rs).
Proof.
  intros Hl Hst. unfold then_.
  destruct (heap s !! q) as [[[] rs']|] eqn:Hq; simpl; auto.
  destruct (decide (q = p)) as [->|Hne]; [congruence|].
  rewrite list_lookup_insert_ne by assumption. assumption.
Qed.

Lemma settle_settled q o s p st rs :
  heap s !! p = Some (MkPromise st rs) -> st <> Pending ->
  heap (settle q o s) !! p = Some (MkPromise st rs).
Proof.
  intros Hl Hst. unfold settle.
  destruct o; auto;
    (destruct (heap s !! q) as [[[] rs']|] eqn:Hq; simpl; auto;
     destruct (decide (q = p)) as [->|Hne]; [congruence|];
     rewrite list_lookup_insert_ne by assumption; assumption).
Qed.

Lemma wait_settled s p st rs :
  heap s !! p = Some (MkPromise st rs) -> st <> Pending ->
  heap (fst (waitForPromise cfg s)) !! p = Some (MkPromise st rs).
Proof.
  intros Hl Hst. unfold waitForPromise, call_factory.
  destruct (promise s) as [q|];
    [|destruct (loadComponent cfg) as [?|f];
      [|destruct (f (factory_calls s))]]; simpl; auto;
    (destruct (negb _); simpl; [apply then_settled; simpl; auto|simpl; auto]);
    apply lookup_app_l_Some; assumption.
Qed.

Lemma run_effect_settled i ld s p st rs :
  heap s !! p = Some (MkPromise st rs) -> st <> Pending ->
  heap (fst (run_effect cfg i ld s)) !! p = Some (MkPromise st rs).
Proof.
  intros Hl Hst. unfold run_effect. destruct ld; simpl; [auto|].
  set (s1 := set_flags _ _).
  pose proof (wait_settled s1 p st rs Hl Hst) as H.
  destruct (waitForPromise cfg s1) as [s' [e|p']]; simpl in *; [assumption|].
  apply then_settled; assumption.
Qed.

Lemma step_settled e s p st rs :
  heap s !! p = Some (MkPromise st rs) -> st <> Pending ->
  heap (step cfg e s) !! p = Some (MkPromise st rs).
Proof.
  intros Hl Hst.
  destruct e as [|q k|q o| |props ref|i props ref|i|i]; cbn [step].
  - pose proof (wait_settled s p st rs Hl Hst) as H.
    destruct (waitForPromise cfg s) as [s' [e|p']]; simpl in *; assumption.
  - destruct (existsb _ _); [|auto]. apply then_settled; assumption.
  - apply settle_settled; assumption.
  - destruct (microtasks s) as [|j q]; [auto|].
    destruct (run_job_frame j (set_microtasks q s)) as (_ & -> & _). assumption.
  - assumption.
  - destruct (instances s !! i) as [[[] ld [] c]|]; auto.
  - destruct (instances s !! i) as [[[] ld [cap|] c]|]; auto.
    destruct (run_cleanup_frame c s) as (Hh & _).
    rewrite <- Hh in Hl.
    pose proof (run_effect_settled i cap _ p st rs Hl Hst) as H.
    destruct (run_effect cfg i cap (run_cleanup c s)) as [s' [e|f]]; assumption.
  - destruct (instances s !! i) as [[[] ld [] c]|]; auto.
    destruct (run_cleanup_frame c s) as (Hh & _). simpl. rewrite Hh. assumption.
Qed.

Lemma run_effect_component i ld s :
  component (fst (run_effect cfg i ld s)) = component s.
Proof.
  unfold run_effect. destruct ld; simpl; [reflexivity|].
  set (s1 := set_flags _ _).
  pose proof (wait_frame s1) as (Hc & _).
  destruct (waitForPromise cfg s1) as [s' [e|p']]; simpl in *; [assumption|].
  match goal with |- context [then_ ?a ?b ?c] =>
    destruct (then_frame a b c) as (_ & -> & _) end. assumption.
Qed.

(** Only the loader's completion callback writes [component]. *)
Lemma step_component_other e s :
  e <> EvMicrotask -> component (step cfg e s) = component s.
Proof.
  intros He.
  destruct e as [|q k|q o| |props ref|i props ref|i|i]; cbn [step];
    try congruence.
  - pose proof (wait_frame s) as (Hc & _).
    destruct (waitForPromise cfg s) as [s' [e|p']]; simpl in *; assumption.
  - destruct (existsb _ _); [|auto].
    destruct (then_frame q (RCaller k) s) as (_ & -> & _). auto.
  - destruct (settle_frame q o s) as (_ & -> & _). auto.
  - reflexivity.
  - destruct (instances s !! i) as [[[] ld [] c]|]; auto.
  - destruct (instances s !! i) as [[[] ld [cap|] c]|]; auto.
    pose proof (run_effect_component i cap (run_cleanup c s)) as H.
    destruct (run_effect cfg i cap (run_cleanup c s)) as [s' [e|f]]; simpl in *;
      destruct (run_cleanup_frame c s) as (_ & _ & Hc & _); congruence.
  - destruct (instances s !! i) as [[[] ld [] c]|]; auto.
    destruct (run_cleanup_frame c s) as (_ & _ & Hc & _). simpl. assumption.
Qed.

Lemma step_component e s :
  inv_core cfg s -> component s <> VUndefined ->
  component (step cfg e s) = component s.
Proof.
  intros H Hc.
  assert (He : e = EvMicrotask \/ e <> EvMicrotask)
    by (destruct e; auto; right; discriminate).
  destruct He as [->|He]; [|apply step_component_other; assumption].
  cbn [step]. destruct (microtasks s) as [|[r o] q] eqn:E; [reflexivity|].
  unfold inv_core in H. rewrite E in H.
  destruct (promise s) as [p|]; [|destruct H as (_ & _ & ? & _); congruence].
  destruct H as (_ & _ & st & rs & _ & _ & Hj & _ & Hc' & _).
  destruct (Hj (r, o) (or_introl eq_refl)) as [Ho _]. simpl in Ho. subst o.
  destruct (Hc' Hc) as (res & -> & Hu).
  destruct r as [|i f|k]; simpl.
  - rewrite Hu. reflexivity.
  - destruct (flags s !! f) as [[]|]; reflexivity.
  - reflexivity.
Qed.

Lemma run_promise es s p :
  promise s = Some p ->
  promise (run cfg es s) = Some p /\
  factory_calls (run cfg es s) = factory_calls s.
Proof.
  revert s. induction es as [|e es IH]; intros s Hp; simpl; [auto|].
  destruct (step_promise e s p Hp) as [H1 H2].
  destruct (IH _ H1) as [H3 H4]. split; congruence.
Qed.

Lemma run_settled es s p st rs :
  heap s !! p = Some (MkPromise st rs) -> st <> Pending ->
  heap (run cfg es s) !! p = Some (MkPromise st rs).
Proof.
  revert s. induction es as [|e es IH]; intros s Hl Hst; simpl; [auto|].
  apply IH; [apply step_settled|]; assumption.
Qed.

Lemma run_component es s :
  Inv cfg s -> component s <> VUndefined ->
  component (run cfg es s) = component s.
Proof.
  revert s. induction es as [|e es IH]; intros s HI Hc; simpl; [auto|].
  pose proof (step_component e s (proj1 HI) Hc) as He.
  rewrite IH; [assumption | apply Inv_step; assumption | congruence].
Qed.

(** [preload()] returns the promise the loader holds afterwards, or throws
    what the factory threw and leaves the loader without one. *)
Lemma preload_outcome s :
  inv_core cfg s ->
  (promise (step cfg EvPreload s) = Some 0 /\
   trace (step cfg EvPreload s) = OPreload 0 :: trace s) \/
  (exists e f, promise s = None /\ loadComponent cfg = LFactory f /\
     f (factory_calls s) = Threw e /\
     step cfg EvPreload s =
       emit (OThrown e) (set_factory_calls (S (factory_calls s)) s)).
Proof.
  intros H. cbn [step].
  destruct (inv_core_wait s H) as (_ & [[Hs Hp] | (e & Hs & _)]).
  - left. pose proof (wait_frame s) as (_ & _ & _ & Ht).
    destruct (waitForPromise cfg s) as [s' p]. simpl in *. subst p. simpl.
    rewrite Ht. auto.
  - right. destruct (wait_thrown s e Hs) as (Hn & Hw & f & Hlc & Hf).
    destruct (waitForPromise cfg s) as [s' p]. simpl in *. subst p s'.
    eauto 10.
Qed.

(** *** Renders in the trace *)

Lemma run_job_render j s i out :
  In (ORender i out) (trace (run_job j s)) -> In (ORender i out) (trace s).
Proof.
  destruct j as [[|i' f|k] [|res|e]]; simpl; auto;
    try (destruct (unwrap res); simpl; auto);
    try (destruct (flags s !! f) as [[]|]; simpl; auto);
    intros [|]; auto; discriminate.
Qed.

Lemma run_job_instances_length j s :
  length (instances (run_job j s)) = length (instances s).
Proof.
  destruct j as [[|i' f|k] [|res|e]]; simpl; auto;
    try (destruct (unwrap res); simpl; auto);
    try (destruct (flags s !! f) as [[]|]; simpl; auto;
         apply length_alter).
Qed.

Lemma step_render e s i out :
  In (ORender i out) (trace (step cfg e s)) ->
  In (ORender i out) (trace s) \/
  (i < length (instances (step cfg e s)) /\
   exists props ref, out = render cfg s props ref).
Proof.
  destruct e as [|q k|q o| |props ref|i' props ref|i'|i']; cbn [step].
  - pose proof (wait_frame s) as (_ & _ & _ & Ht).
    destruct (waitForPromise cfg s) as [s' [e|p']]; simpl in *; rewrite Ht;
      (intros [|]; [discriminate | auto]).
  - destruct (existsb _ _); [|auto].
    destruct (then_frame q (RCaller k) s) as (_ & _ & _ & _ & _ & ->). auto.
  - destruct (settle_frame q o s) as (_ & _ & _ & _ & _ & ->). auto.
  - destruct (microtasks s) as [|j q]; [auto|].
    intros H%run_job_render. auto.
  - simpl. intros [[= <- <-] | H]; [right | auto].
    rewrite length_app. simpl. split; [lia | eauto].
  - destruct (instances s !! i') as [[[] ld [] c]|] eqn:Hi; auto.
    simpl. intros [[= <- <-] | H]; [right | auto].
    rewrite length_insert. split; [eapply lookup_lt_Some; eauto | eauto].
  - destruct (instances s !! i') as [[[] ld [cap|] c]|]; auto.
    pose proof (run_effect_spec i' cap (run_cleanup c s)) as (_ & _ & _ & Ht & _).
    destruct (run_cleanup_frame c s) as (_ & _ & _ & _ & _ & _ & Ht').
    destruct (run_effect cfg i' cap (run_cleanup c s)) as [s' [e|f]]; simpl in *;
      rewrite Ht, Ht'; [intros [|]; [discriminate | auto] | auto].
  - destruct (instances s !! i') as [[[] ld [] c]|]; auto.
    destruct (run_cleanup_frame c s) as (_ & _ & _ & _ & _ & _ & Ht').
    simpl. rewrite Ht'. auto.
Qed.

Lemma step_instances_length e s :
  length (instances s) <= length (instances (step cfg e s)).
Proof.
  destruct e as [|q k|q o| |props ref|i' props ref|i'|i']; cbn [step].
  - pose proof (wait_frame s) as (_ & Hi & _).
    destruct (waitForPromise cfg s) as [s' [e|p']]; simpl in *; rewrite Hi; lia.
  - destruct (existsb _ _); [|auto].
    destruct (then_frame q (RCaller k) s) as (_ & _ & _ & -> & _). auto.
  - destruct (settle_frame q o s) as (_ & _ & _ & -> & _). auto.
  - destruct (microtasks s) as [|j q]; [auto|].
    rewrite run_job_instances_length. simpl. lia.
  - simpl. rewrite length_app. lia.
  - destruct (instances s !! i') as [[[] ld [] c]|]; auto.
    simpl. rewrite length_insert. lia.
  - destruct (instances s !! i') as [[[] ld [cap|] c]|]; auto.
    pose proof (run_effect_spec i' cap (run_cleanup c s)) as (_ & _ & Hi & _).
    destruct (run_cleanup_frame c s) as (_ & _ & _ & _ & _ & Hi' & _).
    destruct (run_effect cfg i' cap (run_cleanup c s)) as [s' [e|f]]; simpl in *;
      rewrite length_insert, Hi, Hi'; lia.
  - destruct (instances s !! i') as [[[] ld [] c]|]; auto.
    destruct (run_cleanup_frame c s) as (_ & _ & _ & _ & _ & Hi' & _).
    simpl. rewrite length_insert, Hi'. lia.
Qed.

Lemma renders_bounded es i out :
  In (ORender i out) (trace (run cfg es (init cfg))) ->
  i < length (instances (run cfg es (init cfg))).
Proof.
  revert i out. induction es as [|e es IH] using rev_ind; intros i out.
  - simpl. tauto.
  - rewrite run_app. simpl. intros [H | [H _]]%step_render; [|assumption].
    pose proof (step_instances_length e (run cfg es (init cfg))).
    specialize (IH _ _ H). lia.
Qed.

(** Every render logged along a run was produced by [render] in a state
    satisfying any property the steps preserve. *)
Lemma run_render (P : state -> Prop) (Q : rnode -> Prop) :
  (forall e s, P s -> P (step cfg e s)) ->
  (forall s props ref, P s -> Q (render cfg s props ref)) ->
  forall es s i out, P s ->
    In (ORender i out) (trace (run cfg es s)) ->
    In (ORender i out) (trace s) \/ Q out.
Proof.
  intros Hstep Hq es. induction es as [|e es IH]; intros s i out HP; simpl.
  - auto.
  - intros [[H | (_ & props & ref & ->)]%step_render | H]%IH; auto.
Qed.

(** *** The render function *)

Lemma strict_eq_refl v : truthy v = true -> strict_eq v v = true.
Proof.
  destruct v; simpl; try discriminate; intros _.
  - apply Bool.eqb_reflx.
  - apply Z.eqb_refl.
  - apply String.eqb_refl.
  - apply Nat.eqb_refl.
  - apply Nat.eqb_refl.
Qed.

Lemma strict_eq_truthy a b :
  truthy a = true -> truthy b = false -> strict_eq a b = false.
Proof.
  destruct a, b; simpl; try reflexivity; try discriminate.
  - intros -> ->. reflexivity.
  - intros Ha Hb. apply negb_false_iff, Z.eqb_eq in Hb. subst.
    apply negb_true_iff in Ha. assumption.
  - intros Ha Hb. apply negb_false_iff, String.eqb_eq in Hb. subst.
    apply negb_true_iff in Ha. assumption.
Qed.

Lemma render_loaded s props ref :
  truthy (component s) = true ->
  render cfg s props ref = RComp (component s) ref props.
Proof.
  intros H. unfold render, js_or. rewrite H, H, strict_eq_refl by assumption.
  reflexivity.
Qed.

Lemma render_unloaded s props ref :
  truthy (component s) = false ->
  render cfg s props ref = placeholder_node cfg props.
Proof.
  intros H. unfold render, placeholder_node, js_or. rewrite H.
  destruct (truthy (placeholder cfg)) eqn:Hp; [|reflexivity].
  rewrite strict_eq_truthy by assumption. reflexivity.
Qed.

(** *** Resolution *)

Lemma fulfilled_component s p r rs :
  inv_core cfg s -> promise s = Some p ->
  heap s !! p = Some (MkPromise (Fulfilled r) rs) ->
  component s = VUndefined \/ unwrap r = Some (component s).
Proof.
  unfold inv_core. intros H Hp Hl. rewrite Hp in H.
  destruct H as (-> & _ & st & rs' & Hh & _ & _ & _ & Hc & _).
  rewrite Hh in Hl. injection Hl as -> ->.
  destruct (component s) eqn:E; auto; right;
    (destruct Hc as (r' & [= <-] & Hu); [discriminate | assumption]).
Qed.

Lemma resolved_component s r :
  inv_core cfg s -> preload_resolved s r -> truthy r = true ->
  unwrap r = Some (component s) /\ truthy (component s) = true.
Proof.
  intros H (p & Hp & (rs & Hl) & Hd) Hr.
  assert (Ht : truthy (component s) = true).
  { unfold inv_core in H. rewrite Hp in H.
    destruct H as (-> & _ & st & rs' & Hh & Hrs & _ & _ & _ & Hg & Ho).
    rewrite Hh in Hl. injection Hl as -> ->.
    destruct Hd as [Hm | (k & Hk)].
    - destruct (truthy (component s)) eqn:E; [reflexivity|].
      specialize (Hg eq_refl Hr). rewrite Hm, Hrs in Hg by discriminate.
      discriminate.
    - apply (Ho k r Hk), Hr. }
  split; [|assumption].
  destruct (fulfilled_component s p r rs H Hp Hl) as [E | E]; [|assumption].
  rewrite E in Ht. discriminate.
Qed.

Lemma rejected_component s p e rs :
  inv_core cfg s -> promise s = Some p ->
  heap s !! p = Some (MkPromise (Rejected e) rs) ->
  component s = VUndefined.
Proof.
  unfold inv_core. intros H Hp Hl. rewrite Hp in H.
  destruct H as (-> & _ & st & rs' & Hh & _ & _ & _ & Hc & _).
  rewrite Hh in Hl. injection Hl as -> ->.
  destruct (component s) eqn:E; auto;
    (destruct Hc as (r' & [=] & _); discriminate).
Qed.

(** *** Unmounted instances *)

Lemma step_unmounted e s i x :
  inv_flags s -> instances s !! i = Some x -> mounted x = false ->
  instances (step cfg e s) !! i = Some x /\
  updates_to i (trace (step cfg e s)) = updates_to i (trace s).
Proof.
  intros HI Hi Hm.
  destruct e as [|q k|q o| |props ref|i' props ref|i'|i']; cbn [step].
  - pose proof (wait_frame s) as (_ & Hins & _ & Ht).
    destruct (waitForPromise cfg s) as [s' [e|p']]; simpl in *;
      rewrite Hins, Ht; auto.
  - destruct (existsb _ _); [|auto].
    destruct (then_frame q (RCaller k) s) as (_ & _ & _ & -> & _ & ->). auto.
  - destruct (settle_frame q o s) as (_ & _ & _ & -> & _ & ->). auto.
  - destruct (microtasks s) as [|[r o] q] eqn:E; [auto|].
    destruct r as [|j f|k]; destruct o as [|res|err]; simpl; auto.
    + destruct (unwrap res); simpl; auto.
    + destruct (flags s !! f) as [[]|] eqn:Hf; simpl; auto.
      destruct HI as (HA & _).
      destruct (HA j f) as [_ Hon].
      { unfold all_reactions. rewrite E. apply in_or_app. right. left. reflexivity. }
      destruct (Hon Hf) as (ld & pe & Hj).
      assert (j <> i) as Hne by (intros ->; rewrite Hi in Hj; injection Hj as ->; discriminate).
      rewrite list_lookup_alter_ne by assumption.
      split; [assumption|].
      destruct (Nat.eqb_spec i j); [congruence | reflexivity].
  - simpl. split; [apply lookup_app_l_Some; assumption | reflexivity].
  - destruct (instances s !! i') as [[[] ld [] c]|] eqn:Hi'; auto.
    assert (i' <> i) as Hne by (intros ->; rewrite Hi in Hi'; injection Hi' as ->; discriminate).
    simpl. rewrite list_lookup_insert_ne by assumption. auto.
  - destruct (instances s !! i') as [[[] ld [cap|] c]|] eqn:Hi'; auto.
    assert (i' <> i) as Hne by (intros ->; rewrite Hi in Hi'; injection Hi' as ->; discriminate).
    pose proof (run_effect_spec i' cap (run_cleanup c s)) as (_ & _ & Hins & Ht & _).
    destruct (run_cleanup_frame c s) as (_ & _ & _ & _ & _ & Hins' & Ht').
    destruct (run_effect cfg i' cap (run_cleanup c s)) as [s' [e|f]]; simpl in *;
      (rewrite list_lookup_insert_ne by assumption); rewrite Hins, Hins', Ht, Ht';
      auto.
  - destruct (instances s !! i') as [[[] ld [] c]|] eqn:Hi'; auto.
    assert (i' <> i) as Hne by (intros ->; rewrite Hi in Hi'; injection Hi' as ->; discriminate).
    destruct (run_cleanup_frame c s) as (_ & _ & _ & _ & _ & Hins' & Ht').
    simpl. rewrite list_lookup_insert_ne by assumption. rewrite Hins', Ht'. auto.
Qed.

Lemma run_unmounted es s i x :
  Inv cfg s -> instances s !! i = Some x -> mounted x = false ->
  instances (run cfg es s) !! i = Some x /\
  updates_to i (trace (run cfg es s)) = updates_to i (trace s).
Proof.
  revert s. induction es as [|e es IH]; intros s HI Hi Hm; simpl; [auto|].
  destruct (step_unmounted e s i x (proj2 HI) Hi Hm) as [H1 H2].
  destruct (IH _ (Inv_step e s HI) H1 Hm) as [H3 H4].
  split; [assumption | congruence].
Qed.

End Invariants.

(** ** The claims *)

(** Claim C1, at a factory that throws.  The loader does not keep such a
    factory from being called again: the call throws before [promise] is
    assigned, so the next [preload()] calls it once more.  With a factory
    whose first [n] calls throw, [n] calls of [preload()] on a fresh loader
    call it [n] times, each throws to its caller, and none returns a
    promise. *)
Theorem throwing_factory_is_called_again
    (cfg : config) (f : nat -> outcome) (n : nat) :
  loadComponent cfg = LFactory f ->
  (forall k, k < n -> exists e, f k = Threw e) ->
  let s := run cfg (repeat EvPreload n) (init cfg) in
  factory_calls s = n /\
  promise s = None /\ heap s = [] /\
  length (trace s) = n /\
  (forall o, In o (trace s) -> exists e, o = OThrown e).
Proof.
  intros Hlc Hthrow. cbv zeta. induction n as [|n IH].
  - simpl. unfold init. rewrite Hlc. simpl. repeat split; auto. intros o [].
  - change (repeat EvPreload (S n)) with (EvPreload :: repeat EvPreload n).
    rewrite repeat_cons, run_app.
    destruct IH as (Hfc & Hp & Hh & Hlen & Htr); [intros; apply Hthrow; lia|].
    destruct (Hthrow n) as [e He]; [lia|].
    simpl. unfold waitForPromise, call_factory.
    rewrite Hp, Hlc, Hfc, He. simpl.
    repeat split; auto.
    intros o [<- | Hin]; eauto.
Qed.

(** Claim C2.  The loader state only moves forward: once [promise] is set it
    keeps that promise, and once [component] is set it keeps that value,
    through any further events. *)
Theorem loader_state_monotonic (cfg : config) (es es' : list event) :
  let s := run cfg es (init cfg) in
  let s' := run cfg es' s in
  (forall p, promise s = Some p -> promise s' = Some p) /\
  (component s <> VUndefined -> component s' = component s).
Proof.
  intros s s'. split.
  - intros p Hp. apply run_promise, Hp.
  - intros Hc. apply run_component; [apply Inv_reachable | assumption].
Qed.

(** Claim C3.  A module record [{ default: X }] and the bare component [X]
    (one without a [default] property of its own) are unwrapped to the same
    [X]: once the fulfilment has been delivered the loader holds [X] and
    renders [X], whichever of the two the promise was fulfilled with. *)
Theorem default_and_direct_resolve_alike
    (cfg : config) (es : list event) (X : value) (id : nat) (r : value) :
  truthy X = true ->
  (forall d, get_prop X "default" = Some d -> truthy d = false) ->
  r = X \/ r = VObj id [("default", X)] ->
  let s := run cfg es (init cfg) in
  unwrap r = Some X /\
  (forall p rs, promise s = Some p ->
     heap s !! p = Some (MkPromise (Fulfilled r) rs) ->
     component s = VUndefined \/ component s = X) /\
  (preload_resolved s r ->
     component s = X /\
     forall props ref, render cfg s props ref = RComp X ref props).
Proof.
  intros HX Hd Hr s. pose proof (Inv_reachable cfg es) as [HI _]. fold s in HI.
  assert (Hu : unwrap r = Some X).
  { destruct Hr as [-> | ->].
    - unfold unwrap. destruct (get_prop X "default") as [d|] eqn:E.
      + unfold js_or. rewrite (Hd d eq_refl). reflexivity.
      + destruct X; discriminate.
    - unfold unwrap, js_or. simpl. rewrite HX. reflexivity. }
  assert (Ht : truthy r = true) by (destruct Hr as [-> | ->]; auto).
  split; [assumption|]. split.
  - intros p rs Hp Hl.
    destruct (fulfilled_component cfg s p r rs HI Hp Hl) as [E | E]; [auto|].
    right. congruence.
  - intros Hres. destruct (resolved_component cfg s r HI Hres Ht) as [E Hc].
    assert (component s = X) as Hs by congruence. split; [assumption|].
    intros props ref. rewrite render_loaded by assumption. rewrite Hs. reflexivity.
Qed.

(** Claim C4.  Once the loader's promise is rejected nothing recovers: the
    rejection reaches no handler of the loader, the factory is not called
    again, the promise is not replaced, [component] stays unset, and every
    later render, of a new or of an existing instance, yields the
    placeholder. *)
Theorem rejection_is_permanent
    (cfg : config) (es : list event) (p : nat) (e : value) (rs : list reaction) :
  let s := run cfg es (init cfg) in
  promise s = Some p ->
  heap s !! p = Some (MkPromise (Rejected e) rs) ->
  forall es', let s' := run cfg es' s in
    component s' = VUndefined /\
    promise s' = Some p /\
    heap s' !! p = Some (MkPromise (Rejected e) rs) /\
    factory_calls s' = factory_calls s /\
    initial_loaded s' = false /\
    (forall props ref, render cfg s' props ref = placeholder_node cfg props) /\
    (forall i out, In (ORender i out) (trace s') ->
       In (ORender i out) (trace s) \/ exists props, out = placeholder_node cfg props) /\
    (forall i f, run_job (RSetComponent, Rejected e) s' = emit (OUnhandled e) s' /\
       run_job (RSetLoaded i f, Rejected e) s' = emit (OUnhandled e) s').
Proof.
  intros s Hp Hl es' s'.
  pose proof (Inv_reachable cfg es) as HI. fold s in HI.
  pose proof (Inv_run cfg es' s HI) as HI'. fold s' in HI'.
  destruct (run_promise cfg es' s p Hp) as [Hp' Hf]. fold s' in Hp', Hf.
  assert (Hl' : heap s' !! p = Some (MkPromise (Rejected e) rs))
    by (apply run_settled; [assumption | discriminate]).
  assert (Hc : component s' = VUndefined)
    by (eapply rejected_component; [apply HI' | eauto..]).
  repeat split; auto.
  - unfold initial_loaded. rewrite Hc. reflexivity.
  - intros props ref. apply render_unloaded. rewrite Hc. reflexivity.
  - intros i out.
    apply (run_render cfg
             (fun st => Inv cfg st /\ promise st = Some p /\
                        heap st !! p = Some (MkPromise (Rejected e) rs))
             (fun out => exists props, out = placeholder_node cfg props)).
    + intros ev st (H1 & H2 & H3). split; [apply Inv_step; assumption|].
      split; [apply step_promise; assumption|].
      apply step_settled; [assumption | discriminate].
    + intros st props ref (H1 & H2 & H3). exists props.
      apply render_unloaded.
      rewrite (rejected_component cfg st p e rs (proj1 H1) H2 H3). reflexivity.
    + auto.
Qed.

(** Claim C5.  Unmounting an instance leaves the promise, the loader state, the
    microtask queue and every other instance (with its isMounted flag) as
    they were; and from the moment an instance is unmounted, whatever
    happens next -- the promise resolving included -- no [setLoaded] reaches
    it and its state no longer changes. *)
Theorem unmount_cancels_only_own_update
    (cfg : config) (es : list event) (i : nat) :
  let s := run cfg es (init cfg) in
  let s1 := step cfg (EvUnmount i) s in
  (heap s1 = heap s /\ promise s1 = promise s /\ component s1 = component s /\
   microtasks s1 = microtasks s /\ factory_calls s1 = factory_calls s) /\
  (forall k, k <> i -> instances s1 !! k = instances s !! k) /\
  (forall k y f, k <> i -> instances s !! k = Some y -> cleanup y = Some f ->
     flags s1 !! f = flags s !! f) /\
  (forall x, instances s1 !! i = Some x -> mounted x = false ->
     forall es', let s' := run cfg es' s1 in
       instances s' !! i = Some x /\
       updates_to i (trace s') = updates_to i (trace s1)).
Proof.
  intros s s1. pose proof (Inv_reachable cfg es) as HI. fold s in HI.
  assert (HI1 : Inv cfg s1) by (apply Inv_step; assumption).
  split; [|split; [|split]].
  - unfold s1. cbn [step].
    destruct (instances s !! i) as [[[] ld [] c]|]; auto 10.
    destruct (run_cleanup_frame c s) as (H1 & H2 & H3 & H4 & H5 & _).
    simpl. auto 10.
  - intros k Hk. unfold s1. cbn [step].
    destruct (instances s !! i) as [[[] ld [] c]|]; auto.
    destruct (run_cleanup_frame c s) as (_ & _ & _ & _ & _ & Hins & _).
    simpl. rewrite list_lookup_insert_ne by auto. rewrite Hins. reflexivity.
  - intros k y f Hk Hy Hc. unfold s1. cbn [step].
    destruct (instances s !! i) as [[[] ld [] c]|] eqn:Hi; auto.
    simpl. rewrite run_cleanup_flags. destruct c as [g|]; simpl; [|reflexivity].
    destruct HI as [_ (_ & _ & HC)].
    assert (g <> f) as Hne.
    { intros ->. apply Hk. eapply (HC k i); eauto. }
    rewrite list_lookup_insert_ne by assumption. reflexivity.
  - intros x Hx Hm es' s'. apply run_unmounted; assumption.
Qed.

(** Claim C6 (as amended).  When [preload()] has been called, its promise
    has been fulfilled with a module and the fulfilment has been delivered
    (the microtask queue has drained, or a caller chained on the returned
    promise has been resumed) before anything is mounted, the first mount
    starts with [loaded = true] and renders the resolved component with the
    ref attached; no render of this loader, then or later, shows the
    placeholder. *)
Theorem preloaded_first_mount_shows_component
    (cfg : config) (es : list event) (r : value) (props : object) (ref : value) :
  let s := run cfg es (init cfg) in
  preload_resolved s r ->
  is_module r = true ->
  instances s = [] ->
  let s1 := step cfg (EvMount props ref) s in
  exists X,
    unwrap r = Some X /\ component s = X /\
    instances s1 = [MkInstance true true (Some true) None] /\
    trace s1 = ORender 0 (RComp X ref props) :: trace s /\
    forall es' i out, In (ORender i out) (trace (run cfg es' s1)) ->
      exists props' ref', out = RComp X ref' props'.
Proof.
  intros s Hres Hm Hnil s1.
  pose proof (Inv_reachable cfg es) as HI. fold s in HI.
  destruct (resolved_component cfg s r (proj1 HI) Hres (is_module_truthy r Hm))
    as [Hu Ht].
  exists (component s). split; [assumption|]. split; [reflexivity|].
  assert (Hd : component s <> VUndefined) by (eapply unwrap_defined; eauto).
  split; [|split].
  - unfold s1. simpl. rewrite Hnil. unfold initial_loaded.
    destruct (component s); try discriminate; reflexivity.
  - unfold s1. simpl. rewrite Hnil, render_loaded by assumption. reflexivity.
  - intros es' i out Hin.
    apply (run_render cfg
             (fun st => Inv cfg st /\ component st = component s)
             (fun out => exists props' ref', out = RComp (component s) ref' props'))
      in Hin.
    + destruct Hin as [Hin | Hin]; [|assumption].
      unfold s1 in Hin. simpl in Hin. destruct Hin as [[= <- <-] | Hin].
      * rewrite render_loaded by assumption. eauto.
      * apply (renders_bounded cfg es) in Hin. fold s in Hin.
        rewrite Hnil in Hin. simpl in Hin. lia.
    + intros ev st (H1 & H2). split; [apply Inv_step; assumption|].
      rewrite <- H2. apply step_component; [apply H1 | congruence].
    + intros st props' ref' (H1 & H2). exists props', ref'.
      rewrite render_loaded by congruence. congruence.
    + split; [apply Inv_step; assumption | reflexivity].
Qed.

(** Claim C8.  The render function hands the props on unchanged to whichever
    component it renders, attaches the ref exactly when that is the resolved
    component, and gives the placeholder a null ref. *)
Theorem render_forwards_props_and_ref
    (cfg : config) (s : state) (props : object) (ref : value) :
  match render cfg s props ref with
  | RComp C r ps =>
      ps = props /\
      ((truthy (component s) = true /\ C = component s /\ r = ref) \/
       (truthy (component s) = false /\ C = placeholder cfg /\ r = VNull))
  | RVal v =>
      v = VNull /\ truthy (component s) = false /\
      truthy (placeholder cfg) = false
  | _ => False
  end.
Proof.
  destruct (truthy (component s)) eqn:Hc.
  - rewrite render_loaded by assumption. auto.
  - rewrite render_unloaded by assumption. unfold placeholder_node.
    destruct (truthy (placeholder cfg)); auto.
Qed.

(** ** The claims at the sample loader *)

Lemma throwing_factory_is_called_again_witness :
  loadComponent offline_chart = LFactory (fun _ => Threw (VStr "offline")) /\
  (forall k, k < 3 -> exists e, (fun _ : nat => Threw (VStr "offline")) k = Threw e) /\
  factory_calls
    (run offline_chart [EvPreload; EvPreload; EvPreload] (init offline_chart))
  = 3.
Proof.
  assert (H : forall k, k < 3 ->
            exists e, (fun _ : nat => Threw (VStr "offline")) k = Threw e)
    by (intros; eexists; reflexivity).
  split; [reflexivity|]. split; [exact H|].
  apply (throwing_factory_is_called_again offline_chart
           (fun _ => Threw (VStr "offline")) 3 eq_refl H).
Defined.

Lemma loader_state_monotonic_witness :
  promise (run lazy_chart preload_and_resolve (init lazy_chart)) = Some 0 /\
  component (run lazy_chart preload_and_resolve (init lazy_chart)) <> VUndefined /\
  promise (run lazy_chart busy_run
             (run lazy_chart preload_and_resolve (init lazy_chart))) = Some 0 /\
  component (run lazy_chart busy_run
               (run lazy_chart preload_and_resolve (init lazy_chart))) =
  component (run lazy_chart preload_and_resolve (init lazy_chart)).
Proof.
  destruct (loader_state_monotonic lazy_chart preload_and_resolve busy_run)
    as [Hp Hc].
  split; [reflexivity|]. split; [discriminate|].
  split; [apply Hp; reflexivity | apply Hc; discriminate].
Defined.

Lemma default_and_direct_resolve_alike_witness :
  truthy Chart = true /\
  (forall d, get_prop Chart "default" = Some d -> truthy d = false) /\
  preload_resolved (run lazy_chart preload_and_resolve (init lazy_chart))
    chart_module /\
  component (run lazy_chart preload_and_resolve (init lazy_chart)) = Chart.
Proof.
  assert (Hd : forall d, get_prop Chart "default" = Some d -> truthy d = false)
    by (intros d [= <-]; reflexivity).
  assert (Hr : preload_resolved
                 (run lazy_chart preload_and_resolve (init lazy_chart))
                 chart_module).
  { exists 0. split; [reflexivity|]. split; [exists []; reflexivity|].
    left. reflexivity. }
  split; [reflexivity|]. split; [exact Hd|]. split; [exact Hr|].
  apply (default_and_direct_resolve_alike lazy_chart preload_and_resolve
           Chart 3 chart_module eq_refl Hd (or_intror eq_refl)).
  exact Hr.
Defined.

Lemma rejection_is_permanent_witness :
  promise (run lazy_chart failed_import (init lazy_chart)) = Some 0 /\
  heap (run lazy_chart failed_import (init lazy_chart)) !! 0 =
    Some (MkPromise (Rejected (VStr "ChunkLoadError")) []) /\
  component (run lazy_chart busy_run
               (run lazy_chart failed_import (init lazy_chart))) = VUndefined.
Proof.
  split; [reflexivity|]. split; [reflexivity|].
  apply (rejection_is_permanent lazy_chart failed_import 0
           (VStr "ChunkLoadError") [] eq_refl eq_refl busy_run).
Defined.

Lemma unmount_cancels_only_own_update_witness :
  instances (step lazy_chart (EvUnmount 0)
               (run lazy_chart two_mounted (init lazy_chart))) !! 0 =
    Some (MkInstance false false None (Some 0)) /\
  updates_to 0
    (trace (run lazy_chart preload_and_resolve
              (step lazy_chart (EvUnmount 0)
                 (run lazy_chart two_mounted (init lazy_chart))))) =
  updates_to 0
    (trace (step lazy_chart (EvUnmount 0)
              (run lazy_chart two_mounted (init lazy_chart)))).
Proof.
  split; [reflexivity|].
  apply (proj2 (proj2 (proj2 (unmount_cancels_only_own_update lazy_chart
                                two_mounted 0)))
           (MkInstance false false None (Some 0)) eq_refl eq_refl
           preload_and_resolve).
Defined.

(** The instance that stayed mounted does get its update. *)
Example surviving_instance_is_updated :
  let s := run lazy_chart
             (two_mounted ++
              [EvUnmount 0; EvSettle 0 (Fulfilled chart_module);
               EvMicrotask; EvMicrotask; EvMicrotask; EvMicrotask])
             (init lazy_chart) in
  trace s = OSetLoaded 1 :: trace (run lazy_chart two_mounted (init lazy_chart)) /\
  instances s !! 1 = Some (MkInstance true true None (Some 1)) /\
  instances s !! 0 = Some (MkInstance false false None (Some 0)).
Proof. repeat split. Qed.

(** C6 as stated, with resolution read as the promise being fulfilled,
    fails: mounted in the same turn as the fulfilment, before the microtask
    that stores the component has run, the first render is the placeholder. *)
Lemma first_mount_claim_fails : ~ first_mount_claim lazy_chart.
Proof.
  intros H.
  destruct (H [EvPreload; EvSettle 0 (Fulfilled chart_module)] 0 chart_module []
              some_props some_ref (or_introl eq_refl) eq_refl eq_refl eq_refl
              eq_refl) as (X & Hu & Ht).
  injection Hu as <-. discriminate Ht.
Qed.

Lemma preloaded_first_mount_shows_component_witness :
  preload_resolved (run lazy_chart awaited_preload (init lazy_chart))
    chart_module /\
  is_module chart_module = true /\
  instances (run lazy_chart awaited_preload (init lazy_chart)) = [] /\
  exists X,
    unwrap chart_module = Some X /\
    component (run lazy_chart awaited_preload (init lazy_chart)) = X /\
    instances (step lazy_chart (EvMount some_props some_ref)
                 (run lazy_chart awaited_preload (init lazy_chart))) =
      [MkInstance true true (Some true) None] /\
    trace (step lazy_chart (EvMount some_props some_ref)
             (run lazy_chart awaited_preload (init lazy_chart))) =
      ORender 0 (RComp X some_ref some_props)
      :: trace (run lazy_chart awaited_preload (init lazy_chart)) /\
    forall es' i out,
      In (ORender i out)
        (trace (run lazy_chart es'
                  (step lazy_chart (EvMount some_props some_ref)
                     (run lazy_chart awaited_preload (init lazy_chart))))) ->
      exists props' ref', out = RComp X ref' props'.
Proof.
  assert (Hr : preload_resolved
                 (run lazy_chart awaited_preload (init lazy_chart))
                 chart_module).
  { exists 0. split; [reflexivity|]. split; [exists []; reflexivity|].
    right. exists 1. left. reflexivity. }
  split; [exact Hr|]. split; [reflexivity|]. split; [reflexivity|].
  apply (preloaded_first_mount_shows_component lazy_chart awaited_preload
           chart_module some_props some_ref Hr eq_refl eq_refl).
Defined.

End LoaderFacts.

(* ===================================================================== *)
(** * Properties of the persistence thunks *)
(* ===================================================================== *)

Module DashboardInfoFacts.

Import DashboardInfo.

Section Facts.

Variable http : request -> value + value.
Variable JSON_stringify : object -> string.
Variable JSON_parse : value -> option value.
Variable t : string -> string.
Variable addDangerToast : string -> object.
Variable onSave : value -> object.
Variable getErrorText : value -> string -> string.
Variable to_string : value -> string.

Ltac step_thunk :=
  match goal with
  | |- context [nullish ?a] => destruct (nullish a) eqn:?
  | |- context [get_prop ?v ?k] => destruct (get_prop v k) eqn:?
  | |- context [http ?r] => destruct (http r) eqn:?
  | |- context [JSON_parse ?v] => destruct (JSON_parse v) eqn:?
  | |- context [truthy ?v] => destruct (truthy v) eqn:?
  | |- context [strict_eq ?a ?b] => destruct (strict_eq a b) eqn:?
  end; simpl.

Ltac run_thunk :=
  unfold saveChartConfiguration, updateDashboardTheme, saveFilterBarOrientation,
    saveCrossFiltersSetting, toast_and_rethrow, save_time, coalesce_prop,
    updateDashboard, parse, prop, try_catch, bind, dispatch, ret, throw;
  simpl; repeat step_thunk.


(** Claim C10.  When the request fails with [err],
    [saveChartConfiguration] dispatches FAIL and its toast and resolves
    normally, while [updateDashboardTheme], [saveFilterBarOrientation] and
    [saveCrossFiltersSetting] dispatch their toast and reject with [err]. *)
Theorem error_contracts_differ
    (chartConfiguration globalChartConfiguration themeId orientation
       crossFiltersEnabled : value)
    (info : dashboard_info) (err : value) :
  (forall r, http r = inl err) ->
  let toast := Dispatch (addDangerToast (getErrorText err "dashboard")) in
  (snd (saveChartConfiguration http JSON_stringify JSON_parse t addDangerToast
          chartConfiguration globalChartConfiguration info) = inr tt /\
   exists pre,
     fst (saveChartConfiguration http JSON_stringify JSON_parse t addDangerToast
            chartConfiguration globalChartConfiguration info) =
     pre ++ [Dispatch (chart_config_action SAVE_CHART_CONFIG_FAIL
                         chartConfiguration globalChartConfiguration);
             Dispatch (addDangerToast (t "Failed to save cross-filter scoping"))]) /\
  (exists r, updateDashboardTheme http addDangerToast onSave getErrorText
               to_string themeId info = ([Http r; toast], inl err)) /\
  (exists r, saveFilterBarOrientation http JSON_stringify JSON_parse
               addDangerToast onSave getErrorText orientation info =
             ([Http r; toast], inl err)) /\
  (exists r, saveCrossFiltersSetting http JSON_stringify JSON_parse
               addDangerToast onSave getErrorText crossFiltersEnabled info =
             ([Http r; toast], inl err)).
Proof.
  intros Hfail toast. split; [|split; [|split]].
  - run_thunk; (split; [reflexivity|]);
      try (rewrite Hfail in *; discriminate);
      first [ eexists [_]; reflexivity | eexists [_; _]; reflexivity ].
  - unfold updateDashboardTheme, updateDashboard, try_catch, bind. simpl.
    rewrite Hfail. simpl. eauto.
  - unfold saveFilterBarOrientation, updateDashboard, try_catch, bind. simpl.
    rewrite Hfail. simpl. eauto.
  - unfold saveCrossFiltersSetting, updateDashboard, try_catch, bind. simpl.
    rewrite Hfail. simpl. eauto.
Qed.

End Facts.

(** ** The claims at the sample environment *)


Lemma error_contracts_differ_witness :
  (forall r, server_down r = inl (VStr "Network error")) /\
  snd (saveChartConfiguration server_down stringify_any parse_any (fun s => s)
         toast_action VUndefined (VNum 3) sample_info) = inr tt /\
  snd (updateDashboardTheme server_down toast_action on_save_action error_text
         show_number (VNum 7) sample_info) = inl (VStr "Network error").
Proof.
  assert (H : forall r, server_down r = inl (VStr "Network error"))
    by (intros r; reflexivity).
  destruct (error_contracts_differ server_down stringify_any parse_any
              (fun s => s) toast_action on_save_action error_text show_number
              VUndefined (VNum 3) (VNum 7) (VStr "VERTICAL") (VBool true)
              sample_info (VStr "Network error") H)
    as ((Hs & _) & (r & Ht) & _).
  split; [exact H|]. split; [exact Hs|]. rewrite Ht. reflexivity.
Defined.

End DashboardInfoFacts.

(* ===================================================================== *)
(** * Further properties of the default placeholder *)
(* ===================================================================== *)

Module PlaceholderEdgeFacts.
Import PlaceholderEdges.

Lemma get_after_set k k' v o :
  obj_get k (obj_set k' v o) = if (k =? k')%string then v else obj_get k o.
Proof.
  induction o as [|[k0 v0] o IH]; simpl; [reflexivity|].
  destruct (String.eqb_spec k' k0) as [->|Hne]; simpl.
  - destruct (k =? k0)%string; reflexivity.
  - rewrite IH. destruct (String.eqb_spec k k0) as [->|Hne']; [|reflexivity].
    destruct (String.eqb_spec k0 k'); [congruence | reflexivity].
Qed.

Lemma has_keys k o : obj_has k o = true <-> In k (keys o).
Proof.
  induction o as [|[k0 v0] o IH]; simpl; [split; [discriminate | tauto]|].
  rewrite orb_true_iff, IH, String.eqb_eq. split; intros [H | H]; auto.
Qed.

Lemma get_assign_absent k o src :
  obj_has k src = false -> obj_get k (obj_assign o src) = obj_get k o.
Proof.
  unfold obj_assign. revert o.
  induction src as [|[k0 v0] src IH]; intros o; simpl; [reflexivity|].
  intros [Hk Hs]%orb_false_iff. rewrite IH by assumption.
  rewrite get_after_set, Hk. reflexivity.
Qed.

Lemma get_assign_present k o src :
  List.NoDup (keys src) -> obj_has k src = true ->
  obj_get k (obj_assign o src) = obj_get k src.
Proof.
  unfold obj_assign. revert o.
  induction src as [|[k0 v0] src IH]; intros o Hnd; simpl; [discriminate|].
  apply List.NoDup_cons_iff in Hnd as [Hnin Hnd].
  destruct (String.eqb_spec k k0) as [->|Hne]; simpl.
  - intros _. 
    assert (Hh : obj_has k0 src = false).
    { destruct (obj_has k0 src) eqn:E; [|reflexivity].
      apply has_keys in E. contradiction. }
    fold (obj_assign (obj_set k0 v0 o) src).
    rewrite get_assign_absent by assumption.
    rewrite get_after_set, String.eqb_refl. reflexivity.
  - intros Hh. apply IH; assumption.
Qed.

(** Property X12.  The default placeholder renders nothing exactly when the
    height is falsy: absent, [null], [0] or the empty string; any other
    height, the string ["0"] included, gives a box. *)
Theorem placeholder_absent_iff_no_height (props : object) :
  DefaultPlaceholder props = RVal VNull <->
  truthy (obj_get "height" props) = false.
Proof.
  unfold DefaultPlaceholder, rn_or, rn_and.
  destruct (truthy (obj_get "height" props)) eqn:H; simpl.
  - split; discriminate.
  - rewrite H. split; reflexivity.
Qed.

(** Property X13.  In the box's style every entry of [placeholderStyle]
    takes precedence; a key [placeholderStyle] does not set reads the
    supplied [width] or [height], and nothing otherwise. *)
Theorem placeholder_style_precedence (props : object) :
  let overrides := spread_fields (obj_get "placeholderStyle" props) in
  truthy (obj_get "height" props) = true ->
  List.NoDup (keys overrides) ->
  exists style child,
    DefaultPlaceholder props = RDiv "async-asm-placeholder" style child /\
    forall k,
      obj_get k style =
      if obj_has k overrides then obj_get k overrides
      else obj_get k [("width", obj_get "width" props);
                      ("height", obj_get "height" props)].
Proof.
  intros overrides Hh Hnd. unfold DefaultPlaceholder, rn_or, rn_and.
  rewrite !Hh. simpl. eexists _, _. split; [reflexivity|].
  intros k. fold overrides. destruct (obj_has k overrides) eqn:E.
  - apply get_assign_present; assumption.
  - apply get_assign_absent; assumption.
Qed.

(** Property X14.  The box holds the loading indicator exactly when
    [showLoadingForImport] is truthy; when the prop is absent the default
    [false] is what the box holds. *)
Theorem placeholder_loading_iff_flag (props : object) :
  truthy (obj_get "height" props) = true ->
  exists style child,
    DefaultPlaceholder props = RDiv "async-asm-placeholder" style child /\
    (child = RLoading "floating" <->
     truthy (obj_get "showLoadingForImport" props) = true) /\
    (obj_get "showLoadingForImport" props = VUndefined ->
     child = RVal (VBool false)).
Proof.
  intros Hh. unfold DefaultPlaceholder, rn_or, rn_and. rewrite !Hh. simpl.
  eexists _, _. split; [reflexivity|].
  destruct (obj_get "showLoadingForImport" props) eqn:E; simpl;
    repeat match goal with
    | |- context [if ?b then _ else _] => destruct b eqn:?
    end;
    (split; [split; (discriminate || reflexivity || congruence)
            | (discriminate || reflexivity)]).
Qed.

(** ** The properties at the sample props *)

Lemma placeholder_style_precedence_witness :
  truthy (obj_get "height" restyled_props) = true /\
  List.NoDup (keys (spread_fields (obj_get "placeholderStyle" restyled_props))) /\
  exists style child,
    DefaultPlaceholder restyled_props =
      RDiv "async-asm-placeholder" style child /\
    forall k,
      obj_get k style =
      if obj_has k (spread_fields (obj_get "placeholderStyle" restyled_props))
      then obj_get k (spread_fields (obj_get "placeholderStyle" restyled_props))
      else obj_get k [("width", obj_get "width" restyled_props);
                      ("height", obj_get "height" restyled_props)].
Proof.
  assert (H : List.NoDup
                (keys (spread_fields (obj_get "placeholderStyle" restyled_props)))).
  { constructor; [intros [] | constructor]. }
  split; [reflexivity|]. split; [exact H|].
  apply (placeholder_style_precedence restyled_props eq_refl H).
Defined.

Lemma placeholder_loading_iff_flag_witness :
  truthy (obj_get "height" sized_props) = true /\
  exists style child,
    DefaultPlaceholder sized_props = RDiv "async-asm-placeholder" style child /\
    (child = RLoading "floating" <->
     truthy (obj_get "showLoadingForImport" sized_props) = true) /\
    (obj_get "showLoadingForImport" sized_props = VUndefined ->
     child = RVal (VBool false)).
Proof.
  split; [reflexivity|].
  apply (placeholder_loading_iff_flag sized_props eq_refl).
Defined.

End PlaceholderEdgeFacts.

(* ===================================================================== *)
(** * Further properties of the loader *)
(* ===================================================================== *)

Module LoaderLifeFacts.
Import Loader LoaderLife LoaderFacts.

Section Life.
Variable cfg : config.

Lemma unfulfilled_component s :
  inv_core cfg s -> unfulfilled s -> component s = VUndefined.
Proof.
  unfold inv_core, unfulfilled. intros H Hu.
  destruct (promise s) as [p|].
  - destruct H as (-> & _ & st & rs & Hh & _ & _ & _ & Hc & _).
    destruct (component s) eqn:E; auto;
      (destruct Hc as (r & -> & _); [discriminate|];
       exfalso; apply (Hu 0 r rs eq_refl); rewrite Hh; reflexivity).
  - apply H.
Qed.

Lemma unfulfilled_before e s :
  unfulfilled (step cfg e s) -> unfulfilled s.
Proof.
  intros Hu p r rs Hp Hl.
  apply (Hu p r rs).
  - apply step_promise. assumption.
  - apply step_settled; [assumption | discriminate].
Qed.

Lemma component_promise s :
  inv_core cfg s -> component s <> VUndefined -> promise s = Some 0.
Proof.
  unfold inv_core. destruct (promise s) as [p|].
  - intros (-> & _) _. reflexivity.
  - intros (_ & _ & Hc & _) Hn. congruence.
Qed.

Lemma truthy_defined v : truthy v = true -> v <> VUndefined.
Proof. intros H ->. discriminate. Qed.

Lemma initial_loaded_truthy s :
  truthy (component s) = true -> initial_loaded s = true.
Proof.
  unfold initial_loaded. destruct (component s); try discriminate; reflexivity.
Qed.

(** After a rejection no step delivers [setLoaded] or changes a
    [loaded] flag. *)
Lemma step_rejected_quiet ev s p e rs i :
  inv_core cfg s -> promise s = Some p ->
  heap s !! p = Some (MkPromise (Rejected e) rs) ->
  updates_to i (trace (step cfg ev s)) = updates_to i (trace s) /\
  (forall x, instances s !! i = Some x ->
     exists x', instances (step cfg ev s) !! i = Some x' /\ loaded x' = loaded x).
Proof.
  intros HI Hp Hl.
  destruct ev as [|q k|q o| |props ref|i' props ref|i'|i']; cbn [step].
  - pose proof (wait_frame cfg s) as (_ & Hins & _ & Ht).
    destruct (waitForPromise cfg s) as [s' [e0|p']]; simpl in *;
      rewrite Hins, Ht; eauto.
  - destruct (existsb _ _); [|eauto].
    destruct (then_frame q (RCaller k) s) as (_ & _ & _ & -> & _ & ->). eauto.
  - destruct (settle_frame q o s) as (_ & _ & _ & -> & _ & ->). eauto.
  - destruct (microtasks s) as [|[r o] mt] eqn:E; [eauto|].
    unfold inv_core in HI. rewrite Hp, E in HI.
    destruct HI as (-> & _ & st & rs' & Hh & _ & Hj & _).
    destruct (Hj (r, o) (or_introl eq_refl)) as [Ho _]. simpl in Ho.
    rewrite Hh in Hl. injection Hl as -> ->. subst o.
    destruct r; simpl; eauto.
  - simpl. split; [reflexivity|]. intros x Hx. exists x.
    split; [apply lookup_app_l_Some; assumption | reflexivity].
  - destruct (instances s !! i') as [[[] ld [] c]|] eqn:Hi'; eauto.
    simpl. split; [reflexivity|]. intros x Hx.
    destruct (decide (i' = i)) as [->|Hne].
    + rewrite list_lookup_insert_eq by (eapply lookup_lt_Some; eauto).
      rewrite Hi' in Hx. injection Hx as <-. eauto.
    + rewrite list_lookup_insert_ne by assumption. eauto.
  - destruct (instances s !! i') as [[[] ld [cap|] c]|] eqn:Hi'; eauto.
    pose proof (run_effect_spec cfg i' cap (run_cleanup c s)) as (_ & _ & Hins & Ht & _).
    destruct (run_cleanup_frame c s) as (_ & _ & _ & _ & _ & Hins' & Ht').
    destruct (run_effect cfg i' cap (run_cleanup c s)) as [s' [e0|f]]; simpl in *;
      rewrite Hins, Hins', Ht, Ht'; (split; [reflexivity|]); intros x Hx;
      (destruct (decide (i' = i)) as [->|Hne];
       [ rewrite list_lookup_insert_eq by (eapply lookup_lt_Some; eauto);
         rewrite Hi' in Hx; injection Hx as <-; eauto
       | rewrite list_lookup_insert_ne by assumption; eauto ]).
  - destruct (instances s !! i') as [[[] ld [] c]|] eqn:Hi'; eauto.
    destruct (run_cleanup_frame c s) as (_ & _ & _ & _ & _ & Hins' & Ht').
    simpl. rewrite Hins', Ht'. split; [reflexivity|]. intros x Hx.
    destruct (decide (i' = i)) as [->|Hne].
    + rewrite list_lookup_insert_eq by (eapply lookup_lt_Some; eauto).
      rewrite Hi' in Hx. injection Hx as <-. eauto.
    + rewrite list_lookup_insert_ne by assumption. eauto.
Qed.

(** *** Registered callbacks stay registered until they run *)

Lemma in_flat_map_insert_keep {A B} (g : A -> list B) (l : list A) p y y' x :
  l !! p = Some y -> In x (flat_map g l) ->
  In x (g y) \/ In x (flat_map g (<[p:=y']> l)).
Proof.
  revert p. induction l as [|a l IH]; intros p Hl; simpl; [tauto|].
  destruct p as [|p]; simpl in *; rewrite !in_app_iff.
  - injection Hl as ->. tauto.
  - intros [H | H]; [tauto|]. destruct (IH _ Hl H); tauto.
Qed.

Lemma in_flat_map_insert_new {A B} (g : A -> list B) (l : list A) p y y' x :
  l !! p = Some y -> In x (g y') -> In x (flat_map g (<[p:=y']> l)).
Proof.
  revert p. induction l as [|a l IH]; intros p Hl; simpl; [discriminate|].
  destruct p as [|p]; simpl in *; rewrite !in_app_iff; eauto.
Qed.

Lemma then_keeps p r s x :
  In x (reactions_of s) -> In x (reactions_of (then_ p r s)).
Proof.
  unfold reactions_of, all_reactions, then_.
  destruct (heap s !! p) as [[st rs]|] eqn:Hl; [|auto].
  destruct st; simpl; rewrite ?map_app, !in_app_iff; [|tauto..].
  intros [H | H]; [|auto]. left.
  destruct (in_flat_map_insert_keep p_reactions _ p _
              (MkPromise Pending (rs ++ [r])) x Hl H) as [H' | H']; [|assumption].
  eapply in_flat_map_insert_new; [eassumption|]. simpl.
  apply in_or_app. auto.
Qed.

Lemma then_adds p r s po :
  heap s !! p = Some po -> In r (reactions_of (then_ p r s)).
Proof.
  unfold reactions_of, all_reactions, then_. intros Hl. rewrite Hl.
  destruct po as [[] rs]; simpl; rewrite ?map_app, !in_app_iff; simpl; auto.
  left. eapply in_flat_map_insert_new; [eassumption|]. simpl.
  apply in_or_app. simpl. auto.
Qed.

Lemma settle_keeps p o s x :
  In x (reactions_of s) -> In x (reactions_of (settle p o s)).
Proof.
  unfold reactions_of, all_reactions, settle.
  destruct o; [auto| |];
    (destruct (heap s !! p) as [[[] rs]|] eqn:Hl; [|auto..];
     simpl; rewrite map_app, map_fst_tag, !in_app_iff;
     intros [H | H]; [|auto];
     match goal with |- context [<[p := ?y']> (heap s)] =>
       destruct (in_flat_map_insert_keep p_reactions _ p _ y' x Hl H)
         as [H' | H'] end; eauto).
Qed.

Lemma wait_keeps s x :
  In x (reactions_of s) -> In x (reactions_of (fst (waitForPromise cfg s))).
Proof.
  unfold waitForPromise, call_factory. intros H.
  destruct (promise s) as [p|];
    [|destruct (loadComponent cfg) as [st|f];
      [|destruct (f (factory_calls s))]]; simpl;
    try (destruct (negb _); simpl; [apply then_keeps|]);
    revert H; unfold reactions_of, all_reactions; simpl;
    rewrite ?flat_map_app; simpl; rewrite ?app_nil_r; auto.
Qed.

(** *** A rejection is never undone *)

Lemma existsb_insert_same {A} (g : A -> bool) (l : list A) p y y' :
  l !! p = Some y -> g y' = g y -> existsb g (<[p:=y']> l) = existsb g l.
Proof.
  revert p. induction l as [|a l IH]; intros p Hl Hg; simpl; [reflexivity|].
  destruct p as [|p]; simpl in *.
  - injection Hl as ->. rewrite Hg. reflexivity.
  - rewrite (IH _ Hl Hg). reflexivity.
Qed.

Lemma existsb_insert_false {A} (g : A -> bool) (l : list A) p y y' :
  l !! p = Some y -> g y = false ->
  existsb g (<[p:=y']> l) = false -> existsb g l = false.
Proof.
  revert p. induction l as [|a l IH]; intros p Hl Hg; simpl; [reflexivity|].
  destruct p as [|p]; simpl in *.
  - injection Hl as ->. rewrite Hg. intros [_ H]%orb_false_iff. assumption.
  - intros [Ha H]%orb_false_iff. rewrite Ha. simpl. eapply IH; eauto.
Qed.

Lemma then_failed p r s : failed (then_ p r s) = failed s.
Proof.
  unfold failed, then_. destruct (heap s !! p) as [[[] rs]|] eqn:Hl; simpl; auto.
  eapply existsb_insert_same; [eassumption | reflexivity].
Qed.

Lemma settle_failed p o s : failed (settle p o s) = false -> failed s = false.
Proof.
  unfold failed, settle.
  destruct o; auto;
    (destruct (heap s !! p) as [[[] rs]|] eqn:Hl; simpl; auto;
     eapply existsb_insert_false; [eassumption | reflexivity]).
Qed.

Lemma wait_failed s :
  failed (fst (waitForPromise cfg s)) = false -> failed s = false.
Proof.
  unfold waitForPromise, call_factory.
  destruct (promise s) as [p|];
    [|destruct (loadComponent cfg) as [st|f];
      [|destruct (f (factory_calls s))]]; simpl;
    try (destruct (negb _); simpl; [rewrite then_failed|]);
    unfold failed; simpl; auto;
    rewrite existsb_app; intros [H _]%orb_false_iff; assumption.
Qed.

(** *** The waiting invariant *)

Lemma live_ok_same s s' :
  instances s' = instances s -> flags s' = flags s ->
  (forall x, In x (reactions_of s) -> In x (reactions_of s')) ->
  (failed s' = false -> failed s = false) ->
  live_ok s -> live_ok s'.
Proof.
  intros Hi Hf Hr Hfa (L1 & L2 & L3). unfold live_ok. rewrite Hi, Hf.
  split; [|split]; eauto.
Qed.

Lemma job_outcome s r o q :
  inv_core cfg s -> microtasks s = (r, o) :: q ->
  (exists v, o = Fulfilled v) \/ failed s = true.
Proof.
  unfold inv_core. intros H E. rewrite E in H.
  destruct (promise s) as [p|]; [|destruct H as (_ & ? & _); discriminate].
  destruct H as (_ & _ & st & rs & Hh & _ & Hj & _).
  destruct (Hj (r, o) (or_introl eq_refl)) as [Ho Hn]. simpl in Ho. subst o.
  destruct st; [congruence | eauto |].
  right. unfold failed. rewrite Hh. reflexivity.
Qed.

Lemma live_ok_microtask s :
  inv_core cfg s -> live_ok s -> live_ok (step cfg EvMicrotask s).
Proof.
  intros HI HL. cbn [step].
  destruct (microtasks s) as [|[r o] q] eqn:E; [assumption|].
  pose proof (job_outcome s r o q HI E) as Ho.
  destruct HL as (L1 & L2 & L3).
  assert (Hkeep : forall i f, In (RSetLoaded i f) (reactions_of s) ->
            r <> RSetLoaded i f ->
            In (RSetLoaded i f)
              (all_reactions (heap s) q)).
  { intros i f Hin Hne. unfold reactions_of, all_reactions in *.
    rewrite E in Hin. simpl in Hin. rewrite in_app_iff in *. simpl in Hin.
    destruct Hin as [H | [H | H]]; auto. congruence. }
  destruct r as [|i0 f0|k].
  - (* the loader's callback: instances, flags and heap stay *)
    assert (Hs : forall s', instances s' = instances s -> flags s' = flags s ->
                 heap s' = heap s -> microtasks s' = q -> live_ok s').
    { intros s' Hi Hf Hh Hm. unfold live_ok, reactions_of, failed.
      rewrite Hi, Hf, Hh, Hm. split; [eauto | split; [eauto|]].
      intros i x f H1 H2 H3 H4 H5. apply Hkeep; [eapply L3; eauto | discriminate]. }
    destruct o as [|res|e]; simpl; [apply Hs; reflexivity| |apply Hs; reflexivity].
    destruct (unwrap res); apply Hs; reflexivity.
  - destruct o as [|res|e]; simpl.
    + destruct Ho as [(v & [=]) | Hf].
      unfold live_ok, reactions_of, failed. simpl.
      split; [eauto | split; [eauto|]]. intros. unfold failed in *. congruence.
    + destruct (flags s !! f0) as [[]|] eqn:Hf0.
      * (* delivered: instance i0 becomes loaded *)
        unfold live_ok, reactions_of, failed. simpl.
        assert (Hlk : forall i x,
          alter (fun x => MkInstance (mounted x) true (pending_effect x) (cleanup x))
            i0 (instances s) !! i = Some x ->
          (i = i0 /\ loaded x = true) \/ (i <> i0 /\ instances s !! i = Some x)).
        { intros i x. destruct (decide (i0 = i)) as [->|Hne].
          - rewrite list_lookup_alter_eq.
            destruct (instances s !! i); [|discriminate]. simpl.
            intros [= <-]. auto.
          - rewrite list_lookup_alter_ne by assumption. auto. }
        split; [|split].
        -- intros i x cap [(_ & Hl) | (_ & Hx)]%Hlk; [congruence | eauto].
        -- intros i x f Hx. 
           destruct (decide (i0 = i)) as [->|Hne].
           ++ rewrite list_lookup_alter_eq in Hx.
              destruct (instances s !! i) as [x0|] eqn:Hx0; [|discriminate].
              simpl in Hx. injection Hx as <-. simpl. eauto.
           ++ rewrite list_lookup_alter_ne in Hx by assumption. eauto.
        -- intros i x f [(_ & Hl) | (Hne & Hx)]%Hlk; [congruence|].
           intros H2 H3 H4 H5. apply Hkeep; [eapply L3; eauto | congruence].
      * (* the cell is cleared: nothing is delivered *)
        unfold live_ok, reactions_of, failed. simpl.
        split; [eauto | split; [eauto|]].
        intros i x f H1 H2 H3 H4 H5. apply Hkeep; [eapply L3; eauto|].
        intros [= -> ->]. rewrite (L2 _ _ _ H1 H2 H4) in Hf0. discriminate.
      * unfold live_ok, reactions_of, failed. simpl.
        split; [eauto | split; [eauto|]].
        intros i x f H1 H2 H3 H4 H5. apply Hkeep; [eapply L3; eauto|].
        intros [= -> ->]. rewrite (L2 _ _ _ H1 H2 H4) in Hf0. discriminate.
    + destruct Ho as [(v & [=]) | Hf].
      unfold live_ok, reactions_of, failed. simpl.
      split; [eauto | split; [eauto|]]. intros. unfold failed in *. congruence.
  - unfold live_ok, reactions_of, failed. simpl.
    split; [eauto | split; [eauto|]].
    intros i x f H1 H2 H3 H4 H5. apply Hkeep; [eapply L3; eauto | discriminate].
Qed.

Lemma live_ok_effects s i ld cap c :
  Inv cfg s -> live_ok s ->
  instances s !! i = Some (MkInstance true ld (Some cap) c) ->
  live_ok (step cfg (EvEffects i) s).
Proof.
  intros [HI (_ & HB & HC)] (L1 & L2 & L3) Hi. cbn [step]. rewrite Hi.
  pose proof (run_effect_spec cfg i cap (run_cleanup c s))
    as (Hf & Hfl & Hins & _ & _).
  assert (Hreg : loaded (MkInstance true ld (Some cap) c) = false ->
            (exists e, snd (run_effect cfg i cap (run_cleanup c s)) = inl e) \/
            In (RSetLoaded i (length (flags (run_cleanup c s))))
               (reactions_of (fst (run_effect cfg i cap (run_cleanup c s))))).
  { intros Hld. rewrite (L1 _ _ _ Hi eq_refl Hld). unfold run_effect. simpl.
    set (s1 := set_flags _ _).
    assert (H1 : inv_core cfg s1).
    { destruct (run_cleanup_frame c s) as (? & ? & ? & ? & ? & ? & ?).
      revert HI. apply inv_core_ext; assumption. }
    destruct (inv_core_wait cfg s1 H1) as (Hw & [[Hp Hpr] | (e & Hp & _)]).
    - right. destruct (waitForPromise cfg s1) as [s' p]. simpl in *. subst p.
      simpl. unfold inv_core in Hw. rewrite Hpr in Hw.
      destruct Hw as (_ & _ & st & rs & Hh & _).
      eapply then_adds. rewrite Hh. reflexivity.
    - left. destruct (waitForPromise cfg s1) as [s' p]. simpl in *. subst p.
      simpl. eauto. }
  assert (Hkeep : forall x, In x (reactions_of s) ->
            In x (reactions_of (fst (run_effect cfg i cap (run_cleanup c s))))).
  { intros x Hx. unfold run_effect. destruct cap; simpl.
    - destruct c; exact Hx.
    - set (s1 := set_flags _ _).
      assert (Hx1 : In x (reactions_of s1)) by (destruct c; exact Hx).
      apply wait_keeps in Hx1.
      destruct (waitForPromise cfg s1) as [s' [e|p]]; simpl in *; [assumption|].
      apply then_keeps. assumption. }
  assert (Hfail : failed (fst (run_effect cfg i cap (run_cleanup c s))) = false ->
                  failed s = false).
  { unfold run_effect. destruct cap; simpl.
    - destruct c; auto.
    - set (s1 := set_flags _ _).
      assert (Hx1 : failed s1 = failed s) by (destruct c; reflexivity).
      pose proof (wait_failed s1) as Hw.
      destruct (waitForPromise cfg s1) as [s' [e|p]]; simpl in *;
        rewrite ?then_failed; intros H; rewrite <- Hx1; auto. }
  destruct (run_cleanup_frame c s) as (_ & _ & _ & _ & _ & Hins' & _).
  pose proof (lookup_lt_Some _ _ _ Hi) as Hlt.
  destruct (run_effect cfg i cap (run_cleanup c s)) as [s' [e|f]]; simpl in *.
  - (* the effect threw: no cleanup, no callback *)
    rewrite run_cleanup_flags in *.
    unfold live_ok, reactions_of, failed in *. simpl.
    rewrite Hfl, Hins, Hins'.
    split; [|split].
    + intros j x cap' [(<- & <- & _) | [_ H]]%list_lookup_insert_Some; eauto.
      discriminate.
    + intros j x f [(<- & <- & _) | [Hne H]]%list_lookup_insert_Some Hm Hc;
        [discriminate|].
      pose proof (HB _ _ _ H Hc) as Hb.
      rewrite lookup_app_l by (rewrite length_clear_flag; assumption).
      destruct c as [g|]; simpl; [|eauto].
      rewrite list_lookup_insert_ne; [eauto|].
      intros ->. apply Hne. eapply (HC i j); eauto.
    + intros j x f [(<- & <- & _) | [Hne H]]%list_lookup_insert_Some Hm Hl Hc Hfa;
        [discriminate|].
      apply Hkeep. eapply L3; eauto.
  - destruct Hf as [[= Hf] | (e & [=] & _)].
    rewrite run_cleanup_flags, length_clear_flag in *. subst f.
    unfold live_ok, reactions_of, failed in *. simpl.
    rewrite Hfl, Hins, Hins'.
    split; [|split].
    + intros j x cap' [(<- & <- & _) | [_ H]]%list_lookup_insert_Some; eauto.
      discriminate.
    + intros j x f [(<- & <- & _) | [Hne H]]%list_lookup_insert_Some Hm Hc.
      * injection Hc as <-.
        rewrite lookup_app_r by (rewrite length_clear_flag; lia).
        rewrite length_clear_flag, Nat.sub_diag. reflexivity.
      * pose proof (HB _ _ _ H Hc) as Hb.
        rewrite lookup_app_l by (rewrite length_clear_flag; assumption).
        destruct c as [g|]; simpl; [|eauto].
        rewrite list_lookup_insert_ne; [eauto|].
        intros ->. apply Hne. eapply (HC i j); eauto.
    + intros j x f [(<- & <- & _) | [Hne H]]%list_lookup_insert_Some Hm Hl Hc Hfa.
      * injection Hc as <-.
        destruct (Hreg Hl) as [(e & [=]) | Hr]. assumption.
      * apply Hkeep. eapply L3; eauto.
Qed.

Lemma live_ok_unmount s i ld c :
  Inv cfg s -> live_ok s ->
  instances s !! i = Some (MkInstance true ld None c) ->
  live_ok (step cfg (EvUnmount i) s).
Proof.
  intros [HI (_ & HB & HC)] (L1 & L2 & L3) Hi. cbn [step]. rewrite Hi.
  destruct (run_cleanup_frame c s) as (Hh & _ & _ & _ & Hm & Hins & _).
  unfold live_ok, reactions_of, failed in *. simpl.
  rewrite Hh, Hm, Hins, run_cleanup_flags.
  split; [|split].
  - intros j x cap' [(<- & <- & _) | [_ H]]%list_lookup_insert_Some;
      [discriminate | eauto].
  - intros j x f [(<- & <- & _) | [Hne H]]%list_lookup_insert_Some Hmo Hc;
      [discriminate|].
    destruct c as [g|]; simpl; [|eauto].
    rewrite list_lookup_insert_ne; [eauto|].
    intros ->. apply Hne. eapply (HC i j); eauto.
  - intros j x f [(<- & <- & _) | [Hne H]]%list_lookup_insert_Some Hmo Hl Hc Hfa;
      [discriminate | eauto].
Qed.

Lemma live_ok_step e s : Inv cfg s -> live_ok s -> live_ok (step cfg e s).
Proof.
  intros HI HL.
  destruct e as [|p k|p o| |props ref|i props ref|i|i].
  - cbn [step]. pose proof (wait_frame cfg s) as (_ & Hi & Hf & _).
    pose proof (wait_keeps s) as Hk. pose proof (wait_failed s) as Hfa.
    destruct (waitForPromise cfg s) as [s' [e|p]]; simpl in *;
      (revert HL; apply live_ok_same; assumption).
  - cbn [step]. destruct (existsb _ _); [|assumption].
    destruct (then_frame p (RCaller k) s) as (_ & _ & _ & Hi & Hf & _).
    revert HL. apply live_ok_same; [assumption | assumption | |].
    + intros x. apply then_keeps.
    + rewrite then_failed. auto.
  - cbn [step]. destruct (settle_frame p o s) as (_ & _ & _ & Hi & Hf & _).
    revert HL. apply live_ok_same; [assumption | assumption | |].
    + intros x. apply settle_keeps.
    + apply settle_failed.
  - apply live_ok_microtask; [apply HI | assumption].
  - cbn [step]. destruct HL as (L1 & L2 & L3).
    unfold live_ok, reactions_of, failed in *. simpl.
    assert (Hlk : forall j x,
      (instances s ++ [MkInstance true (initial_loaded s)
                         (Some (initial_loaded s)) None]) !! j = Some x ->
      instances s !! j = Some x \/
      x = MkInstance true (initial_loaded s) (Some (initial_loaded s)) None).
    { intros j x [H | [_ H]]%lookup_app_Some; [auto|].
      apply list_lookup_singleton_Some in H as [_ <-]. auto. }
    split; [|split].
    + intros j x cap [H | ->]%Hlk; [eauto|]. simpl. congruence.
    + intros j x f [H | ->]%Hlk; [eauto | discriminate].
    + intros j x f [H | ->]%Hlk; [eauto | discriminate].
  - cbn [step].
    destruct (instances s !! i) as [[[] ld [] c]|] eqn:Hi; try assumption.
    destruct HL as (L1 & L2 & L3).
    unfold live_ok, reactions_of, failed in *. simpl.
    split; [|split].
    + intros j x cap [(<- & <- & _) | [_ H]]%list_lookup_insert_Some; [|eauto].
      simpl. congruence.
    + intros j x f [(<- & <- & _) | [_ H]]%list_lookup_insert_Some; eauto.
    + intros j x f [(<- & <- & _) | [_ H]]%list_lookup_insert_Some; eauto.
  - destruct (instances s !! i) as [[[] ld [cap|] c]|] eqn:Hi;
      try (cbn [step]; rewrite Hi; assumption).
    eapply live_ok_effects; eauto.
  - destruct (instances s !! i) as [[[] ld [] c]|] eqn:Hi;
      try (cbn [step]; rewrite Hi; assumption).
    eapply live_ok_unmount; eauto.
Qed.

Lemma live_ok_init : live_ok (init cfg).
Proof.
  unfold live_ok, init. simpl.
  split; [|split]; intros i x ? H; rewrite lookup_nil in H; discriminate.
Qed.

Lemma live_ok_reachable es : live_ok (run cfg es (init cfg)).
Proof.
  induction es as [|e es IH] using rev_ind; [apply live_ok_init|].
  rewrite run_app. simpl. apply live_ok_step; [apply Inv_reachable | assumption].
Qed.

(** *** Calls of the factory *)

Lemma wait_calls s :
  factory_calls (fst (waitForPromise cfg s)) =
  match promise s, loadComponent cfg with
  | None, LFactory _ => S (factory_calls s)
  | _, _ => factory_calls s
  end.
Proof.
  unfold waitForPromise, call_factory.
  destruct (promise s) as [p|];
    [|destruct (loadComponent cfg) as [st|f];
      [|destruct (f (factory_calls s))]]; simpl;
    try (destruct (negb _); simpl;
         [match goal with |- context [then_ ?a ?b ?c] =>
            destruct (then_frame a b c) as (_ & _ & -> & _) end|]);
    reflexivity.
Qed.

Lemma run_effect_thrown i ld s e :
  snd (run_effect cfg i ld s) = inl e ->
  promise s = None /\
  exists f, loadComponent cfg = LFactory f /\ f (factory_calls s) = Threw e.
Proof.
  unfold run_effect. destruct ld; simpl; [discriminate|].
  set (s1 := set_flags _ _).
  pose proof (wait_thrown cfg s1 e) as Hw.
  destruct (waitForPromise cfg s1) as [s' [e'|p]]; simpl in *; [|discriminate].
  intros [= ->]. destruct (Hw eq_refl) as (Hn & _ & Hf). auto.
Qed.

Lemma run_job_thrown j s e :
  In (OThrown e) (trace (run_job j s)) -> In (OThrown e) (trace s).
Proof.
  destruct j as [[|i' f|k] [|res|e']]; simpl; auto;
    try (destruct (unwrap res); simpl; auto);
    try (destruct (flags s !! f) as [[]|]; simpl; auto);
    intros [|]; auto; discriminate.
Qed.

(** Whatever is thrown comes from a call of the factory. *)
Lemma step_thrown ev s e :
  In (OThrown e) (trace (step cfg ev s)) ->
  In (OThrown e) (trace s) \/
  exists f, loadComponent cfg = LFactory f /\ f (factory_calls s) = Threw e.
Proof.
  destruct ev as [|q k'|q o'| |props ref|i' props ref|i'|i']; cbn [step].
  - pose proof (wait_frame cfg s) as (_ & _ & _ & Ht).
    pose proof (wait_thrown cfg s) as Hw.
    destruct (waitForPromise cfg s) as [s' [e'|p']]; simpl in *; rewrite Ht.
    + intros [[= ->] | H]; [|auto].
      destruct (Hw e eq_refl) as (_ & _ & Hf). auto.
    + intros [|]; [discriminate | auto].
  - destruct (existsb _ _); [|auto].
    destruct (then_frame q (RCaller k') s) as (_ & _ & _ & _ & _ & ->). auto.
  - destruct (settle_frame q o' s) as (_ & _ & _ & _ & _ & ->). auto.
  - destruct (microtasks s) as [|j q]; [auto|].
    intros H%run_job_thrown. auto.
  - simpl. intros [|]; [discriminate | auto].
  - destruct (instances s !! i') as [[[] ld [] c]|]; auto.
    simpl. intros [|]; [discriminate | auto].
  - destruct (instances s !! i') as [[[] ld [cap|] c]|]; auto.
    pose proof (run_effect_spec cfg i' cap (run_cleanup c s)) as (_ & _ & _ & Ht & _).
    pose proof (run_effect_thrown i' cap (run_cleanup c s)) as Hw.
    destruct (run_cleanup_frame c s) as (_ & _ & _ & Hfc & _ & _ & Ht').
    destruct (run_effect cfg i' cap (run_cleanup c s)) as [s' [e'|f]]; simpl in *;
      rewrite Ht, Ht'; [|auto].
    intros [[= ->] | H]; [|auto].
    destruct (Hw e eq_refl) as (_ & f & Hlc & Hf). rewrite Hfc in Hf. eauto.
  - destruct (instances s !! i') as [[[] ld [] c]|]; auto.
    destruct (run_cleanup_frame c s) as (_ & _ & _ & _ & _ & _ & Ht').
    simpl. rewrite Ht'. auto.
Qed.

(** *** What callers of preload see *)

Lemma run_job_caller j s k o :
  In (OCaller k o) (trace (run_job j s)) ->
  In (OCaller k o) (trace s) \/ j = (RCaller k, o).
Proof.
  destruct j as [[|i' f|k'] [|res|e]]; simpl; auto;
    try (destruct (unwrap res); simpl; auto);
    try (destruct (flags s !! f) as [[]|]; simpl; auto);
    intros [H | H]; auto; try discriminate; injection H as -> ->; auto.
Qed.

Lemma step_caller e s k o :
  In (OCaller k o) (trace (step cfg e s)) ->
  In (OCaller k o) (trace s) \/
  exists q, microtasks s = (RCaller k, o) :: q.
Proof.
  destruct e as [|q k'|q o'| |props ref|i' props ref|i'|i']; cbn [step].
  - pose proof (wait_frame cfg s) as (_ & _ & _ & Ht).
    destruct (waitForPromise cfg s) as [s' [e|p']]; simpl in *; rewrite Ht;
      (intros [|]; [discriminate | auto]).
  - destruct (existsb _ _); [|auto].
    destruct (then_frame q (RCaller k') s) as (_ & _ & _ & _ & _ & ->). auto.
  - destruct (settle_frame q o' s) as (_ & _ & _ & _ & _ & ->). auto.
  - destruct (microtasks s) as [|j q]; [auto|].
    intros [H | ->]%run_job_caller; eauto.
  - simpl. intros [|]; [discriminate | auto].
  - destruct (instances s !! i') as [[[] ld [] c]|]; auto.
    simpl. intros [|]; [discriminate | auto].
  - destruct (instances s !! i') as [[[] ld [cap|] c]|]; auto.
    pose proof (run_effect_spec cfg i' cap (run_cleanup c s)) as (_ & _ & _ & Ht & _).
    destruct (run_cleanup_frame c s) as (_ & _ & _ & _ & _ & _ & Ht').
    destruct (run_effect cfg i' cap (run_cleanup c s)) as [s' [e|f]]; simpl in *;
      rewrite Ht, Ht'; [intros [|]; [discriminate | auto] | auto].
  - destruct (instances s !! i') as [[[] ld [] c]|]; auto.
    destruct (run_cleanup_frame c s) as (_ & _ & _ & _ & _ & _ & Ht').
    simpl. rewrite Ht'. auto.
Qed.

Lemma queued_outcome s r o q :
  inv_core cfg s -> microtasks s = (r, o) :: q ->
  o <> Pending /\ promise s = Some 0 /\
  exists rs, heap s !! 0 = Some (MkPromise o rs).
Proof.
  unfold inv_core. intros H E. rewrite E in H.
  destruct (promise s) as [p|]; [|destruct H as (_ & ? & _); discriminate].
  destruct H as (-> & _ & st & rs & Hh & _ & Hj & _).
  destruct (Hj (r, o) (or_introl eq_refl)) as [Ho Hn]. simpl in Ho. subst o.
  split; [assumption|]. split; [reflexivity|]. exists rs. rewrite Hh. reflexivity.
Qed.

(** *** Draining the microtask queue *)

Lemma microtask_pop s j q :
  microtasks s = j :: q -> microtasks (step cfg EvMicrotask s) = q.
Proof.
  intros E. cbn [step]. rewrite E.
  destruct (run_job_frame j (set_microtasks q s)) as (_ & _ & _ & -> & _).
  reflexivity.
Qed.

Lemma microtask_instance s i m ld pe c :
  instances s !! i = Some (MkInstance m ld pe c) ->
  exists ld', instances (step cfg EvMicrotask s) !! i = Some (MkInstance m ld' pe c).
Proof.
  intros Hi. cbn [step]. destruct (microtasks s) as [|[r o] q]; [eauto|].
  destruct r as [|i0 f0|k]; destruct o as [|res|e]; simpl; eauto.
  - destruct (unwrap res); simpl; eauto.
  - destruct (flags s !! f0) as [[]|]; simpl; eauto.
    destruct (decide (i0 = i)) as [->|Hne].
    + rewrite list_lookup_alter_eq, Hi. simpl. eauto.
    + rewrite list_lookup_alter_ne by assumption. eauto.
Qed.

Lemma fulfilled_not_failed s p r rs :
  inv_core cfg s -> promise s = Some p ->
  heap s !! p = Some (MkPromise (Fulfilled r) rs) ->
  failed s = false /\ flat_map p_reactions (heap s) = [].
Proof.
  unfold inv_core. intros H Hp Hl. rewrite Hp in H.
  destruct H as (-> & _ & st & rs' & Hh & Hrs & _).
  rewrite Hh in Hl. injection Hl as -> ->.
  unfold failed. rewrite Hh, (Hrs ltac:(discriminate)). split; reflexivity.
Qed.

Lemma drain_loads n : forall s i ld pe f p r rs,
  Inv cfg s -> live_ok s ->
  length (microtasks s) = n ->
  promise s = Some p ->
  heap s !! p = Some (MkPromise (Fulfilled r) rs) ->
  instances s !! i = Some (MkInstance true ld pe (Some f)) ->
  let s' := run cfg (repeat EvMicrotask n) s in
  Inv cfg s' /\ microtasks s' = [] /\ promise s' = Some p /\
  heap s' !! p = Some (MkPromise (Fulfilled r) rs) /\
  instances s' !! i = Some (MkInstance true true pe (Some f)).
Proof.
  induction n as [|n IH]; intros s i ld pe f p r rs HI HL Hn Hp Hl Hi.
  - simpl. apply length_zero_iff_nil in Hn.
    split; [assumption|]. split; [assumption|]. split; [assumption|].
    split; [assumption|].
    destruct ld; [assumption|]. exfalso.
    destruct (fulfilled_not_failed s p r rs (proj1 HI) Hp Hl) as [Hf Hr].
    destruct HL as (_ & _ & L3).
    specialize (L3 i _ f Hi eq_refl eq_refl eq_refl Hf).
    unfold reactions_of, all_reactions in L3. rewrite Hr, Hn in L3. exact L3.
  - assert (exists j q, microtasks s = j :: q) as (j & q & E)
      by (destruct (microtasks s) as [|j q]; [discriminate | eauto]).
    destruct (microtask_instance s i _ _ _ _ Hi) as (ld' & Hi').
    apply (IH (step cfg EvMicrotask s) i ld' pe f p r rs).
    + apply Inv_step; assumption.
    + apply live_ok_step; assumption.
    + rewrite (microtask_pop s j q E). rewrite E in Hn. simpl in Hn. lia.
    + apply step_promise; assumption.
    + apply step_settled; [assumption | discriminate].
    + assumption.
Qed.

End Life.

(** Property X2.  As long as the loader's promise has not been fulfilled
    (not yet requested, pending, or rejected), [component] is unset, a new
    instance starts with [loaded = false], and every render, those already
    logged included, is the placeholder. *)
Theorem placeholder_until_fulfilled (cfg : config) (es : list event) :
  let s := run cfg es (init cfg) in
  unfulfilled s ->
  component s = VUndefined /\
  initial_loaded s = false /\
  (forall props ref, render cfg s props ref = placeholder_node cfg props) /\
  (forall i out, In (ORender i out) (trace s) ->
     exists props, out = placeholder_node cfg props).
Proof.
  intros s Hu.
  pose proof (unfulfilled_component cfg s (proj1 (Inv_reachable cfg es)) Hu) as Hc.
  split; [assumption|]. split; [|split].
  - unfold initial_loaded. rewrite Hc. reflexivity.
  - intros. apply render_unloaded. rewrite Hc. reflexivity.
  - clear Hc. revert Hu. unfold s. clear s.
    induction es as [|e es IH] using rev_ind; intros Hu i out.
    + intros [].
    + rewrite run_app in *. simpl in *.
      pose proof (unfulfilled_before cfg e _ Hu) as Hu0.
      intros [Hin | (_ & props & ref & ->)]%step_render; [eauto|].
      exists props. apply render_unloaded.
      rewrite (unfulfilled_component cfg _ (proj1 (Inv_reachable cfg es)) Hu0).
      reflexivity.
Qed.

(** Property X3.  Once the component is stored, it is there for good: every
    later mount starts with [loaded = true] and every later render yields the
    component with the ref it was given; the placeholder never comes back. *)
Theorem resolved_for_good (cfg : config) (es : list event) :
  let s := run cfg es (init cfg) in
  truthy (component s) = true ->
  forall es', let s' := run cfg es' s in
    component s' = component s /\
    initial_loaded s' = true /\
    (forall props ref,
       render cfg s' props ref = RComp (component s) ref props) /\
    (forall i out, In (ORender i out) (trace s') ->
       In (ORender i out) (trace s) \/
       exists props ref, out = RComp (component s) ref props).
Proof.
  intros s Ht es' s'.
  pose proof (Inv_reachable cfg es) as HI. fold s in HI.
  assert (Hc : component s' = component s)
    by (apply run_component; [assumption | apply truthy_defined, Ht]).
  split; [assumption|]. split; [|split].
  - apply initial_loaded_truthy. congruence.
  - intros props ref. rewrite render_loaded by congruence. congruence.
  - intros i out.
    apply (run_render cfg
             (fun st => Inv cfg st /\ component st = component s)
             (fun out => exists props ref, out = RComp (component s) ref props)).
    + intros e st (H1 & H2). split; [apply Inv_step; assumption|].
      rewrite <- H2. apply step_component; [apply H1|].
      rewrite H2. apply truthy_defined, Ht.
    + intros st props ref (H1 & H2). exists props, ref.
      rewrite render_loaded by congruence. congruence.
    + auto.
Qed.

(** Property X4.  A promise fulfilled with [undefined] or [null] never
    loads anything: reading [.default] throws inside the completion callback
    (an unhandled TypeError), [component] stays unset and every later render
    is the placeholder. *)
Theorem nullish_module_never_loads
    (cfg : config) (es : list event) (p : nat) (r : value) (rs : list reaction) :
  let s := run cfg es (init cfg) in
  r = VUndefined \/ r = VNull ->
  promise s = Some p ->
  heap s !! p = Some (MkPromise (Fulfilled r) rs) ->
  forall es', let s' := run cfg es' s in
    component s' = VUndefined /\
    (forall props ref, render cfg s' props ref = placeholder_node cfg props) /\
    run_job (RSetComponent, Fulfilled r) s' =
      emit (OUnhandled (VStr "TypeError")) s'.
Proof.
  intros s Hr Hp Hl es' s'.
  pose proof (Inv_run cfg es' s (Inv_reachable cfg es)) as HI'. fold s' in HI'.
  destruct (run_promise cfg es' s p Hp) as [Hp' _]. fold s' in Hp'.
  assert (Hl' : heap s' !! p = Some (MkPromise (Fulfilled r) rs))
    by (apply run_settled; [assumption | discriminate]).
  assert (Hu : unwrap r = None) by (destruct Hr as [-> | ->]; reflexivity).
  assert (Hc : component s' = VUndefined).
  { destruct (fulfilled_component cfg s' p r rs (proj1 HI') Hp' Hl') as [E | E];
      [assumption | congruence]. }
  split; [assumption|]. split.
  - intros. apply render_unloaded. rewrite Hc. reflexivity.
  - simpl. rewrite Hu. reflexivity.
Qed.

(** Property X5.  Once the component is stored, [preload()] only returns
    the promise, and mounting a new instance and running its effect touches
    neither the promise nor the queue: the instance starts loaded, renders
    the component and registers no callback. *)
Theorem resolved_loader_is_quiet
    (cfg : config) (es : list event) (props : object) (ref : value) :
  let s := run cfg es (init cfg) in
  truthy (component s) = true ->
  step cfg EvPreload s = emit (OPreload 0) s /\
  step cfg (EvEffects (length (instances s))) (step cfg (EvMount props ref) s) =
    emit (ORender (length (instances s)) (RComp (component s) ref props))
      (set_flags (flags s ++ [true])
         (set_instances
            (instances s ++ [MkInstance true true None (Some (length (flags s)))])
            s)).
Proof.
  intros s Ht.
  pose proof (Inv_reachable cfg es) as [HI _]. fold s in HI.
  pose proof (component_promise cfg s HI (truthy_defined _ Ht)) as Hp.
  split.
  - cbn [step]. unfold waitForPromise. rewrite Hp, Ht. reflexivity.
  - cbn [step]. rewrite initial_loaded_truthy, render_loaded by assumption.
    cbn [instances emit set_instances].
    rewrite list_lookup_middle by reflexivity.
    unfold run_effect, run_cleanup. simpl.
    rewrite insert_app_r_alt by reflexivity. rewrite Nat.sub_diag. simpl.
    unfold set_instances, set_flags, emit. simpl. reflexivity.
Qed.

(** Property X8.  A loader that was handed a promise instead of a factory
    never calls anything and never creates a promise: the one promise object
    is the one it was given, and it is what [preload()] returns. *)
Theorem given_promise_is_reused
    (cfg : config) (st : settled) (es : list event) :
  loadComponent cfg = LPromise st ->
  let s := run cfg es (init cfg) in
  factory_calls s = 0 /\
  length (heap s) = 1 /\
  (promise s = None \/ promise s = Some 0) /\
  (forall p, In (OPreload p) (trace s) -> p = 0).
Proof.
  intros Hl s. pose proof (Inv_reachable cfg es) as [HI _]. fold s in HI.
  assert (Hq : forall p, In (OPreload p) (trace s) -> p = 0)
    by (intros p Hin; apply (preload_promise cfg s p HI Hin)).
  unfold inv_core in HI. destruct (promise s) as [p|].
  - destruct HI as (-> & Hf & st' & rs & Hh & _).
    unfold calls_ok in Hf. rewrite Hl in Hf. rewrite Hh. auto.
  - destruct HI as (Hf & _ & _ & _ & Hlen & _).
    unfold calls_ok in Hf. rewrite Hl in Hf, Hlen. auto.
Qed.

(** Property X6.  After the promise is rejected no instance is ever told
    it loaded: no [setLoaded] is delivered and every instance keeps its
    [loaded] flag, whatever happens next. *)
Theorem rejection_updates_nobody
    (cfg : config) (es : list event) (p : nat) (e : value) (rs : list reaction) :
  let s := run cfg es (init cfg) in
  promise s = Some p ->
  heap s !! p = Some (MkPromise (Rejected e) rs) ->
  forall es' i, let s' := run cfg es' s in
    updates_to i (trace s') = updates_to i (trace s) /\
    (forall x, instances s !! i = Some x ->
       exists x', instances s' !! i = Some x' /\ loaded x' = loaded x).
Proof.
  intros s Hp Hl es' i. pose proof (Inv_reachable cfg es) as HI. fold s in HI.
  clearbody s. revert s HI Hp Hl.
  induction es' as [|ev es' IH]; intros s HI Hp Hl; simpl; [eauto|].
  destruct (step_rejected_quiet cfg ev s p e rs i (proj1 HI) Hp Hl) as [H1 H2].
  destruct (IH (step cfg ev s)) as [H3 H4].
  - apply Inv_step; assumption.
  - apply step_promise; assumption.
  - apply step_settled; [assumption | discriminate].
  - split; [congruence|]. intros x Hx.
    destruct (H2 x Hx) as (x1 & Hx1 & E1).
    destruct (H4 x1 Hx1) as (x2 & Hx2 & E2). exists x2. split; [assumption | congruence].
Qed.

(** Property X7.  With a factory whose first call returns a pending
    promise, the factory is called by the first [preload()] only, but
    every [preload()] made before the promise settles attaches one more
    completion callback: after [n + 1] calls on a fresh loader the pending
    promise holds [n + 1] of them, and its fulfilment queues them all. *)
Theorem preloads_stack_callbacks
    (cfg : config) (f : nat -> outcome) (n : nat) :
  loadComponent cfg = LFactory f ->
  f 0 = Returned Pending ->
  let s := run cfg (repeat EvPreload (S n)) (init cfg) in
  s = MkState [MkPromise Pending (repeat RSetComponent (S n))] (Some 0)
        VUndefined 1 [] [] [] (repeat (OPreload 0) (S n)) /\
  forall r,
    microtasks (step cfg (EvSettle 0 (Fulfilled r)) s) =
    repeat (RSetComponent, Fulfilled r) (S n).
Proof.
  intros Hl Hf s.
  assert (Hs : s = MkState [MkPromise Pending (repeat RSetComponent (S n))]
                     (Some 0) VUndefined 1 [] [] []
                     (repeat (OPreload 0) (S n))).
  { unfold s. clear s. induction n as [|n IH].
    - simpl. unfold waitForPromise, call_factory, init. rewrite Hl. simpl.
      rewrite Hf. reflexivity.
    - change (repeat EvPreload (S (S n)))
        with (EvPreload :: repeat EvPreload (S n)).
      rewrite repeat_cons, run_app, IH.
      change (repeat RSetComponent (S (S n)))
        with (RSetComponent :: repeat RSetComponent (S n)).
      rewrite (repeat_cons (S n) RSetComponent). reflexivity. }
  split; [assumption|]. intros r. rewrite Hs. simpl.
  clear. f_equal. induction n; simpl; congruence.
Qed.

(** Property X1.  A mounted instance whose effect has run is told when the
    module arrives: once the promise is fulfilled with a module and the
    microtasks queued so far have run, the queue is empty, the instance has
    [loaded = true], and a render yields the unwrapped component with the
    ref. *)
Theorem mounted_instance_gets_loaded
    (cfg : config) (es : list event) (i : nat) (ld : bool)
    (pe : option bool) (f p : nat) (r : value) (rs : list reaction) :
  let s := run cfg es (init cfg) in
  instances s !! i = Some (MkInstance true ld pe (Some f)) ->
  promise s = Some p ->
  heap s !! p = Some (MkPromise (Fulfilled r) rs) ->
  is_module r = true ->
  let s' := run cfg (repeat EvMicrotask (length (microtasks s))) s in
  microtasks s' = [] /\
  instances s' !! i = Some (MkInstance true true pe (Some f)) /\
  exists X,
    unwrap r = Some X /\ component s' = X /\
    forall props ref, render cfg s' props ref = RComp X ref props.
Proof.
  intros s Hi Hp Hl Hm s'.
  destruct (drain_loads cfg (length (microtasks s)) s i ld pe f p r rs
              (Inv_reachable cfg es) (live_ok_reachable cfg es) eq_refl Hp Hl Hi)
    as (HI' & Hq & Hp' & Hl' & Hi').
  fold s' in HI', Hq, Hp', Hl', Hi'.
  split; [assumption|]. split; [assumption|].
  assert (Hres : preload_resolved s' r).
  { exists p. split; [assumption|]. split; [eauto | auto]. }
  destruct (resolved_component cfg s' r (proj1 HI') Hres (is_module_truthy r Hm))
    as [Hu Ht].
  exists (component s'). split; [assumption|]. split; [reflexivity|].
  intros props ref. apply render_loaded. assumption.
Qed.

(** Property X9.  A [setLoaded] callback that can still fire (its isMounted
    cell is set) belongs to the last effect of an instance that is mounted;
    so an instance has at most one such callback, however often it was
    rendered. *)
Theorem live_callback_is_current
    (cfg : config) (es : list event) (i f : nat) :
  let s := run cfg es (init cfg) in
  In (RSetLoaded i f) (reactions_of s) ->
  flags s !! f = Some true ->
  (exists ld pe, instances s !! i = Some (MkInstance true ld pe (Some f))) /\
  (forall f', In (RSetLoaded i f') (reactions_of s) ->
     flags s !! f' = Some true -> f' = f).
Proof.
  intros s Hin Hf. pose proof (Inv_reachable cfg es) as [_ (HA & _)].
  fold s in HA. destruct (HA i f Hin) as [_ Hon].
  destruct (Hon Hf) as (ld & pe & Hi). split; [eauto|].
  intros f' Hin' Hf'. destruct (HA i f' Hin') as [_ Hon'].
  destruct (Hon' Hf') as (ld' & pe' & Hi'). congruence.
Qed.

(** Property X10.  A caller chained on the promise [preload()] returned is
    resumed with the outcome of the loader's own promise: the module as the
    factory produced it (not the unwrapped component), or the rejection. *)
Theorem caller_sees_the_promise_outcome
    (cfg : config) (es : list event) (k : nat) (o : settled) :
  let s := run cfg es (init cfg) in
  In (OCaller k o) (trace s) ->
  o <> Pending /\
  promise s = Some 0 /\
  (exists rs, heap s !! 0 = Some (MkPromise o rs)) /\
  (forall r, o = Fulfilled r ->
     component s = VUndefined \/ unwrap r = Some (component s)).
Proof.
  intros s Hin.
  assert (H : o <> Pending /\ promise s = Some 0 /\
              exists rs, heap s !! 0 = Some (MkPromise o rs)).
  { revert Hin. unfold s. clear s.
    induction es as [|e es IH] using rev_ind; [intros []|].
    rewrite run_app. simpl.
    intros [Hin | (q & E)]%step_caller.
    - destruct (IH Hin) as (Hn & Hp & rs & Hl).
      split; [assumption|]. split; [apply step_promise; assumption|].
      exists rs. apply step_settled; assumption.
    - destruct (queued_outcome cfg _ _ _ _ (proj1 (Inv_reachable cfg es)) E)
        as (Hn & Hp & rs & Hl).
      split; [assumption|]. split; [apply step_promise; assumption|].
      exists rs. apply step_settled; assumption. }
  destruct H as (Hn & Hp & rs & Hl).
  split; [assumption|]. split; [assumption|]. split; [eauto|].
  intros r ->.
  apply (fulfilled_component cfg s 0 r rs (proj1 (Inv_reachable cfg es)) Hp Hl).
Qed.

(** Property X22.  The factory returns its promise at most once.  Every
    call but the one whose promise the loader holds threw; every
    [preload()] that returned, returned that promise; once the loader holds
    a promise the factory is never called again.  With a factory that never
    throws, it is called at most once, nothing is ever thrown, and one call
    of [preload()] is enough to have called it. *)
Theorem factory_returns_at_most_once (cfg : config) (es : list event) :
  let s := run cfg es (init cfg) in
  (forall f k, loadComponent cfg = LFactory f -> k < factory_calls s ->
     (exists e, f k = Threw e) \/
     (S k = factory_calls s /\ promise s = Some 0 /\
      exists st, f k = Returned st)) /\
  (forall p, In (OPreload p) (trace s) -> p = 0 /\ promise s = Some 0) /\
  (forall p, promise s = Some p ->
     forall es', factory_calls (run cfg es' s) = factory_calls s) /\
  ((forall f k e, loadComponent cfg = LFactory f -> f k <> Threw e) ->
   factory_calls s <= 1 /\
   (forall e, ~ In (OThrown e) (trace s)) /\
   (In EvPreload es ->
    promise s = Some 0 /\
    forall f, loadComponent cfg = LFactory f -> factory_calls s = 1)).
Proof.
  intros s. pose proof (Inv_reachable cfg es) as [HI _]. fold s in HI.
  assert (Hcalls : calls_ok cfg (promise s) (factory_calls s)).
  { unfold inv_core in HI. destruct (promise s) as [p|].
    - destruct HI as (-> & H & _). exact H.
    - destruct HI as (H & _). exact H. }
  split; [|split; [|split]].
  - intros f k Hlc Hk. unfold calls_ok in Hcalls. rewrite Hlc in Hcalls.
    destruct (promise s) as [p|] eqn:Hp.
    + destruct Hcalls as (n & Hn & Hbefore & Hlast).
      assert (p = 0) as ->
        by (unfold inv_core in HI; rewrite Hp in HI; apply HI).
      destruct (Nat.eq_dec k n) as [->|Hne]; [right; auto|].
      left. apply Hbefore. lia.
    + left. auto.
  - intros p Hin. apply (preload_promise cfg s p HI Hin).
  - intros p Hp es'. apply (run_promise cfg es' s p Hp).
  - intros Hnever.
    assert (Hle : factory_calls s <= 1).
    { unfold calls_ok in Hcalls.
      destruct (loadComponent cfg) as [st|f] eqn:Hlc; [lia|].
      destruct (promise s) as [p|].
      - destruct Hcalls as (n & -> & Hbefore & _).
        destruct n as [|n]; [lia|]. exfalso.
        destruct (Hbefore 0) as [e He]; [lia|]. eapply Hnever; eauto.
      - destruct (factory_calls s) as [|n]; [lia|]. exfalso.
        destruct (Hcalls 0) as [e He]; [lia|]. eapply Hnever; eauto. }
    split; [assumption|]. split.
    + unfold s. clear s HI Hcalls Hle.
      induction es as [|ev es IH] using rev_ind; intros e; [intros []|].
      rewrite run_app. simpl.
      intros [H | (f & Hlc & Hf)]%step_thrown; [eapply IH; eauto|].
      eapply Hnever; eauto.
    + intros Hin.
      assert (Hp : promise s = Some 0).
      { apply in_split in Hin as (es1 & es2 & ->). unfold s.
        rewrite run_app. simpl. apply run_promise.
        destruct (preload_outcome cfg _ (proj1 (Inv_reachable cfg es1)))
          as [[Hp _] | (e & f & _ & Hlc & Hf & _)]; [assumption|].
        exfalso. eapply Hnever; eauto. }
      split; [assumption|]. intros f Hlc.
      unfold calls_ok in Hcalls. rewrite Hlc, Hp in Hcalls.
      destruct Hcalls as (n & Hn & _). lia.
Qed.

(** Property X11.  The effect of an instance that is not loaded sets its
    isMounted cell and calls [waitForPromise()].  When that call reaches a
    factory that throws, the effect throws with it: no promise is stored, no
    callback is attached, no cleanup is returned, and the call is counted.
    Otherwise the effect starts the load or joins it: the loader has its
    promise, the factory was called now only if there was no promise yet,
    and unless the promise was rejected the instance's [setLoaded] callback
    is registered or queued. *)
Theorem unloaded_effect_joins_the_load
    (cfg : config) (es : list event) (i : nat) (cap : bool) (c : option nat) :
  let s := run cfg es (init cfg) in
  instances s !! i = Some (MkInstance true false (Some cap) c) ->
  let s' := step cfg (EvEffects i) s in
  flags s' !! length (flags s) = Some true /\
  (forall f e,
     promise s = None -> loadComponent cfg = LFactory f ->
     f (factory_calls s) = Threw e ->
     promise s' = None /\
     factory_calls s' = S (factory_calls s) /\
     trace s' = OThrown e :: trace s /\
     instances s' !! i = Some (MkInstance true false None None) /\
     reactions_of s' = reactions_of s) /\
  ((promise s <> None \/
    forall f e, loadComponent cfg = LFactory f ->
                f (factory_calls s) <> Threw e) ->
   promise s' = Some 0 /\
   factory_calls s' =
     match promise s, loadComponent cfg with
     | None, LFactory _ => S (factory_calls s)
     | _, _ => factory_calls s
     end /\
   trace s' = trace s /\
   instances s' !! i =
     Some (MkInstance true false None (Some (length (flags s)))) /\
   (failed s' = false ->
    In (RSetLoaded i (length (flags s))) (reactions_of s'))).
Proof.
  intros s Hi s'.
  pose proof (Inv_reachable cfg es) as HI. fold s in HI.
  pose proof (live_ok_reachable cfg es) as HL. fold s in HL.
  pose proof (live_ok_step cfg (EvEffects i) s HI HL) as (L1 & L2 & L3).
  fold s' in L1, L2, L3.
  assert (Hcap : cap = false) by (destruct HL as (H1 & _); eapply H1; eauto).
  subst cap.
  pose proof (lookup_lt_Some _ _ _ Hi) as Hlt.
  destruct (run_cleanup_frame c s) as (Hh & Hpc & Hcc & Hfc & Hm & Hins & Htc).
  set (s1 := set_flags (flags (run_cleanup c s) ++ [true]) (run_cleanup c s)).
  assert (H1 : inv_core cfg s1).
  { destruct HI as [HI _]. revert HI. apply inv_core_ext; assumption. }
  assert (Hs' : s' =
    match waitForPromise cfg s1 with
    | (s2, inr p) =>
        let s3 := then_ p (RSetLoaded i (length (flags (run_cleanup c s)))) s2 in
        set_instances
          (<[i := MkInstance true false None
                    (Some (length (flags (run_cleanup c s))))]> (instances s3)) s3
    | (s2, inl e) =>
        emit (OThrown e)
          (set_instances
             (<[i := MkInstance true false None None]> (instances s2)) s2)
    end).
  { unfold s'. cbn [step]. rewrite Hi. unfold run_effect. simpl. fold s1.
    destruct (waitForPromise cfg s1) as [s2 [e|p]]; reflexivity. }
  pose proof (wait_frame cfg s1) as (_ & Hwi & Hwf & Hwt).
  pose proof (wait_calls cfg s1) as Hwc.
  assert (Hlen : length (flags (run_cleanup c s)) = length (flags s))
    by (rewrite run_cleanup_flags; apply length_clear_flag).
  split; [|split].
  - rewrite Hs'.
    destruct (waitForPromise cfg s1) as [s2 [e|p]]; simpl in *.
    + rewrite Hwf, <- Hlen. apply list_lookup_middle. reflexivity.
    + match goal with |- context [then_ ?a ?b ?c] =>
        destruct (then_frame a b c) as (_ & _ & _ & _ & -> & _) end.
      rewrite Hwf, <- Hlen. apply list_lookup_middle. reflexivity.
  - intros f e Hn Hlc Hf.
    assert (Hw : waitForPromise cfg s1 =
                 (set_factory_calls (S (factory_calls s)) s1, inl e)).
    { unfold waitForPromise, call_factory. simpl.
      rewrite Hpc, Hn, Hlc, Hfc, Hf. reflexivity. }
    rewrite Hs', Hw. simpl.
    rewrite Hpc, Htc, Hins. unfold reactions_of. simpl. rewrite Hh, Hm.
    repeat split; auto.
    apply list_lookup_insert_eq. assumption.
  - intros Hok.
    destruct (inv_core_wait cfg s1 H1) as (Hw & [[Hr Hpr] | (e & He & _)]).
    + assert (Hi' : instances s' !! i =
                Some (MkInstance true false None (Some (length (flags s))))).
      { rewrite Hs'. destruct (waitForPromise cfg s1) as [s2 p]. simpl in *.
        subst p. simpl.
        match goal with |- context [then_ ?a ?b ?c] =>
          destruct (then_frame a b c) as (_ & _ & _ & -> & _) end.
        rewrite Hwi, Hins, Hlen. apply list_lookup_insert_eq. assumption. }
      split; [|split; [|split; [|split]]].
      * rewrite Hs'. destruct (waitForPromise cfg s1) as [s2 p]. simpl in *.
        subst p. simpl.
        match goal with |- context [then_ ?a ?b ?c] =>
          destruct (then_frame a b c) as (-> & _) end. assumption.
      * rewrite Hs'. destruct (waitForPromise cfg s1) as [s2 p]. simpl in *.
        subst p. simpl.
        match goal with |- context [then_ ?a ?b ?c] =>
          destruct (then_frame a b c) as (_ & _ & -> & _) end.
        rewrite Hwc, Hpc, Hfc. reflexivity.
      * rewrite Hs'. destruct (waitForPromise cfg s1) as [s2 p]. simpl in *.
        subst p. simpl.
        match goal with |- context [then_ ?a ?b ?c] =>
          destruct (then_frame a b c) as (_ & _ & _ & _ & _ & ->) end.
        rewrite Hwt. assumption.
      * assumption.
      * intros Hf. apply (L3 i _ _ Hi' eq_refl eq_refl eq_refl Hf).
    + exfalso. destruct (wait_thrown cfg s1 e He) as (Hn & _ & f & Hlc & Hf).
      simpl in Hn, Hf. rewrite Hpc in Hn. rewrite Hfc in Hf.
      destruct Hok as [Hok | Hok]; [congruence | eapply Hok; eauto].
Qed.

(** ** The properties at the sample runs *)

Lemma placeholder_until_fulfilled_witness :
  unfulfilled (run lazy_chart two_mounted (init lazy_chart)) /\
  component (run lazy_chart two_mounted (init lazy_chart)) = VUndefined /\
  initial_loaded (run lazy_chart two_mounted (init lazy_chart)) = false.
Proof.
  assert (H : unfulfilled (run lazy_chart two_mounted (init lazy_chart))).
  { intros p r rs [= <-]. discriminate. }
  split; [exact H|].
  destruct (placeholder_until_fulfilled lazy_chart two_mounted H)
    as (Hc & Hl & _).
  split; assumption.
Defined.

Lemma resolved_for_good_witness :
  truthy (component (run lazy_chart preload_and_resolve (init lazy_chart)))
    = true /\
  component (run lazy_chart busy_run
               (run lazy_chart preload_and_resolve (init lazy_chart))) =
  component (run lazy_chart preload_and_resolve (init lazy_chart)).
Proof.
  split; [reflexivity|].
  apply (resolved_for_good lazy_chart preload_and_resolve eq_refl busy_run).
Defined.

Lemma nullish_module_never_loads_witness :
  promise (run lazy_chart empty_import (init lazy_chart)) = Some 0 /\
  heap (run lazy_chart empty_import (init lazy_chart)) !! 0 =
    Some (MkPromise (Fulfilled VUndefined) []) /\
  component (run lazy_chart busy_run
               (run lazy_chart empty_import (init lazy_chart))) = VUndefined.
Proof.
  split; [reflexivity|]. split; [reflexivity|].
  apply (nullish_module_never_loads lazy_chart empty_import 0 VUndefined []
           (or_introl eq_refl) eq_refl eq_refl busy_run).
Defined.

Lemma resolved_loader_is_quiet_witness :
  truthy (component (run lazy_chart preload_and_resolve (init lazy_chart)))
    = true /\
  step lazy_chart EvPreload
    (run lazy_chart preload_and_resolve (init lazy_chart)) =
  emit (OPreload 0) (run lazy_chart preload_and_resolve (init lazy_chart)).
Proof.
  split; [reflexivity|].
  apply (resolved_loader_is_quiet lazy_chart preload_and_resolve some_props
           some_ref eq_refl).
Defined.

Lemma given_promise_is_reused_witness :
  loadComponent eager_chart = LPromise Pending /\
  factory_calls (run eager_chart busy_run (init eager_chart)) = 0.
Proof.
  split; [reflexivity|].
  exact (proj1 (given_promise_is_reused eager_chart Pending busy_run eq_refl)).
Defined.

Lemma rejection_updates_nobody_witness :
  promise (run lazy_chart failed_import (init lazy_chart)) = Some 0 /\
  heap (run lazy_chart failed_import (init lazy_chart)) !! 0 =
    Some (MkPromise (Rejected (VStr "ChunkLoadError")) []) /\
  updates_to 0
    (trace (run lazy_chart busy_run
              (run lazy_chart failed_import (init lazy_chart)))) =
  updates_to 0 (trace (run lazy_chart failed_import (init lazy_chart))).
Proof.
  split; [reflexivity|]. split; [reflexivity|].
  apply (rejection_updates_nobody lazy_chart failed_import 0
           (VStr "ChunkLoadError") [] eq_refl eq_refl busy_run 0).
Defined.

Lemma preloads_stack_callbacks_witness :
  loadComponent lazy_chart = LFactory (fun _ => Returned Pending) /\
  microtasks
    (step lazy_chart (EvSettle 0 (Fulfilled chart_module))
       (run lazy_chart (repeat EvPreload 3) (init lazy_chart))) =
  repeat (RSetComponent, Fulfilled chart_module) 3.
Proof.
  split; [reflexivity|].
  apply (preloads_stack_callbacks lazy_chart (fun _ => Returned Pending) 2
           eq_refl eq_refl).
Defined.

Lemma mounted_instance_gets_loaded_witness :
  instances (run lazy_chart mounted_then_resolved (init lazy_chart)) !! 1 =
    Some (MkInstance true false None (Some 1)) /\
  is_module chart_module = true /\
  instances
    (run lazy_chart
       (repeat EvMicrotask
          (length (microtasks
                     (run lazy_chart mounted_then_resolved (init lazy_chart)))))
       (run lazy_chart mounted_then_resolved (init lazy_chart))) !! 1 =
    Some (MkInstance true true None (Some 1)).
Proof.
  split; [reflexivity|]. split; [reflexivity|].
  apply (mounted_instance_gets_loaded lazy_chart mounted_then_resolved 1 false
           None 1 0 chart_module [] eq_refl eq_refl eq_refl eq_refl).
Defined.

Lemma live_callback_is_current_witness :
  In (RSetLoaded 1 1)
    (reactions_of (run lazy_chart two_mounted (init lazy_chart))) /\
  flags (run lazy_chart two_mounted (init lazy_chart)) !! 1 = Some true /\
  exists ld pe,
    instances (run lazy_chart two_mounted (init lazy_chart)) !! 1 =
    Some (MkInstance true ld pe (Some 1)).
Proof.
  assert (H : In (RSetLoaded 1 1)
                (reactions_of (run lazy_chart two_mounted (init lazy_chart))))
    by (right; right; right; left; reflexivity).
  split; [exact H|]. split; [reflexivity|].
  apply (live_callback_is_current lazy_chart two_mounted 1 1 H eq_refl).
Defined.

Lemma caller_sees_the_promise_outcome_witness :
  In (OCaller 1 (Fulfilled chart_module))
    (trace (run lazy_chart awaited_preload (init lazy_chart))) /\
  exists rs,
    heap (run lazy_chart awaited_preload (init lazy_chart)) !! 0 =
    Some (MkPromise (Fulfilled chart_module) rs).
Proof.
  assert (H : In (OCaller 1 (Fulfilled chart_module))
                (trace (run lazy_chart awaited_preload (init lazy_chart))))
    by (left; reflexivity).
  split; [exact H|].
  apply (caller_sees_the_promise_outcome lazy_chart awaited_preload 1
           (Fulfilled chart_module) H).
Defined.

Lemma factory_returns_at_most_once_witness :
  (forall f k e, loadComponent lazy_chart = LFactory f -> f k <> Threw e) /\
  In EvPreload busy_run /\
  factory_calls (run lazy_chart busy_run (init lazy_chart)) = 1.
Proof.
  assert (H : forall f k e,
            loadComponent lazy_chart = LFactory f -> f k <> Threw e)
    by (intros f k e [= <-]; discriminate).
  split; [exact H|]. split; [left; reflexivity|].
  apply (proj2 (proj2 (proj2 (proj2 (proj2 (proj2
           (factory_returns_at_most_once lazy_chart busy_run))) H))
           (or_introl eq_refl))
           (fun _ => Returned Pending) eq_refl).
Defined.

Lemma unloaded_effect_joins_the_load_witness :
  instances (run lazy_chart [EvMount some_props some_ref] (init lazy_chart)) !! 0
    = Some (MkInstance true false (Some false) None) /\
  promise (step lazy_chart (EvEffects 0)
             (run lazy_chart [EvMount some_props some_ref] (init lazy_chart)))
    = Some 0 /\
  instances (run offline_chart [EvMount some_props some_ref] (init offline_chart))
    !! 0 = Some (MkInstance true false (Some false) None) /\
  promise (step offline_chart (EvEffects 0)
             (run offline_chart [EvMount some_props some_ref]
                (init offline_chart)))
    = None.
Proof.
  split; [reflexivity|]. split.
  - apply (unloaded_effect_joins_the_load lazy_chart
             [EvMount some_props some_ref] 0 false None eq_refl).
    right. intros f e [= <-]. discriminate.
  - split; [reflexivity|].
    apply (proj1 (proj2 (unloaded_effect_joins_the_load offline_chart
                           [EvMount some_props some_ref] 0 false None eq_refl))
             (fun _ => Threw (VStr "offline")) (VStr "offline")
             eq_refl eq_refl eq_refl).
Defined.

End LoaderLifeFacts.

(* ===================================================================== *)
(** * Further properties of the persistence thunks *)
(* ===================================================================== *)

Module ThunkPathFacts.
Import DashboardInfo ThunkEffects.

Lemma get_set k k' v o :
  obj_get k (obj_set k' v o) = if (k =? k')%string then v else obj_get k o.
Proof.
  induction o as [|[k0 v0] o IH]; simpl; [reflexivity|].
  destruct (String.eqb_spec k' k0) as [->|Hne]; simpl.
  - destruct (k =? k0)%string; reflexivity.
  - rewrite IH. destruct (String.eqb_spec k k0) as [->|Hne']; [|reflexivity].
    destruct (String.eqb_spec k0 k'); [congruence | reflexivity].
Qed.

Lemma get_prop_fields m k v :
  get_prop m k = Some v -> v = obj_get k (spread_fields m).
Proof. destruct m; simpl; intros [=]; subst; reflexivity. Qed.

Lemma get_prop_nullish m k : nullish m = true -> get_prop m k = None.
Proof. destruct m; simpl; intros; try discriminate; reflexivity. Qed.

Section Paths.

Variable http : request -> value + value.
Variable JSON_stringify : object -> string.
Variable JSON_parse : value -> option value.
Variable t : string -> string.
Variable addDangerToast : string -> object.
Variable onSave : value -> object.
Variable getErrorText : value -> string -> string.
Variable to_string : value -> string.

Ltac branch :=
  match goal with
  | |- context [nullish ?a] => destruct (nullish a) eqn:?
  | |- context [get_prop ?v ?k] => destruct (get_prop v k) eqn:?
  | |- context [http ?r] => destruct (http r) eqn:?
  | |- context [JSON_parse ?v] => destruct (JSON_parse v) eqn:?
  | |- context [truthy ?v] => destruct (truthy v) eqn:?
  | |- context [strict_eq ?a ?b] => destruct (strict_eq a b) eqn:?
  end; simpl.

Ltac all_paths :=
  unfold saveChartConfiguration, updateDashboardTheme, saveFilterBarOrientation,
    saveCrossFiltersSetting, toast_and_rethrow, save_time, coalesce_prop,
    updateDashboard, parse, prop, try_catch, bind, dispatch, ret, throw;
  simpl; repeat branch.

(** Property X15.  Whatever the server answers, [updateDashboardTheme],
    [saveFilterBarOrientation] and [saveCrossFiltersSetting] issue exactly
    one request, a PUT for the dashboard of the state, carrying the theme id
    or the stored metadata with the one key replaced;
    [saveChartConfiguration] issues at most one.  Nothing is retried. *)
Theorem one_put_per_call
    (chartConfiguration globalChartConfiguration themeId orientation
       crossFiltersEnabled : value) (info : dashboard_info) :
  requests (fst (updateDashboardTheme http addDangerToast onSave getErrorText
                   to_string themeId info)) =
    [MkRequest "PUT" (id info) [("theme_id", themeId)]] /\
  requests (fst (saveFilterBarOrientation http JSON_stringify JSON_parse
                   addDangerToast onSave getErrorText orientation info)) =
    [MkRequest "PUT" (id info)
       [("json_metadata",
         VStr (JSON_stringify
                 (obj_set "filter_bar_orientation" orientation
                    (spread_fields (metadata info)))))]] /\
  requests (fst (saveCrossFiltersSetting http JSON_stringify JSON_parse
                   addDangerToast onSave getErrorText crossFiltersEnabled info)) =
    [MkRequest "PUT" (id info)
       [("json_metadata",
         VStr (JSON_stringify
                 (obj_set "cross_filters_enabled" crossFiltersEnabled
                    (spread_fields (metadata info)))))]] /\
  (exists rs,
     requests (fst (saveChartConfiguration http JSON_stringify JSON_parse t
                      addDangerToast chartConfiguration
                      globalChartConfiguration info)) = rs /\
     (rs = [] \/
      exists payload, rs = [MkRequest "PUT" (id info) payload])).
Proof.
  split; [|split; [|split]].
  - all_paths; reflexivity.
  - all_paths; reflexivity.
  - all_paths; reflexivity.
  - eexists. split; [reflexivity|]. all_paths; eauto.
Qed.

(** Property X16.  Whenever one of the three rethrowing thunks rejects with
    [e] -- a failed request, a response that cannot be read, metadata that
    does not parse -- the last thing it did was dispatch the danger toast
    with the text of that same [e]. *)
Theorem rejection_is_toasted
    (themeId orientation crossFiltersEnabled : value) (info : dashboard_info)
    (e : value) :
  let toast := Dispatch (addDangerToast (getErrorText e "dashboard")) in
  (snd (updateDashboardTheme http addDangerToast onSave getErrorText
          to_string themeId info) = inl e ->
   exists pre,
     fst (updateDashboardTheme http addDangerToast onSave getErrorText
            to_string themeId info) = pre ++ [toast]) /\
  (snd (saveFilterBarOrientation http JSON_stringify JSON_parse
          addDangerToast onSave getErrorText orientation info) = inl e ->
   exists pre,
     fst (saveFilterBarOrientation http JSON_stringify JSON_parse
            addDangerToast onSave getErrorText orientation info) =
     pre ++ [toast]) /\
  (snd (saveCrossFiltersSetting http JSON_stringify JSON_parse
          addDangerToast onSave getErrorText crossFiltersEnabled info) = inl e ->
   exists pre,
     fst (saveCrossFiltersSetting http JSON_stringify JSON_parse
            addDangerToast onSave getErrorText crossFiltersEnabled info) =
     pre ++ [toast]).
Proof.
  intros toast. unfold toast. split; [|split].
  - all_paths; intros [=]; subst;
      first [ eexists [_]; reflexivity | eexists [_; _]; reflexivity
            | eexists [_; _; _]; reflexivity ].
  - all_paths; intros [=]; subst;
      first [ eexists [_]; reflexivity | eexists [_; _]; reflexivity
            | eexists [_; _; _]; reflexivity ].
  - all_paths; intros [=]; subst;
      first [ eexists [_]; reflexivity | eexists [_; _]; reflexivity
            | eexists [_; _; _]; reflexivity ].
Qed.

(** Property X17.  When [updateDashboardTheme] resolves it has issued the
    request, dispatched one theme action and then at most [onSave] (with a
    truthy time).  The theme is [null] when the id is [null], and never
    falsy otherwise: the server's theme, or one made from the id. *)
Theorem theme_update_success (themeId : value) (info : dashboard_info) :
  snd (updateDashboardTheme http addDangerToast onSave getErrorText
         to_string themeId info) = inr tt ->
  exists r theme tail,
    fst (updateDashboardTheme http addDangerToast onSave getErrorText
           to_string themeId info) =
      Http r :: Dispatch (setDashboardTheme theme) :: tail /\
    (tail = [] \/
     exists time, tail = [Dispatch (onSave time)] /\ truthy time = true) /\
    (strict_eq themeId VNull = true -> theme = VNull) /\
    (strict_eq themeId VNull = false ->
     truthy theme = true /\
     (forall response result,
        http r = inr response ->
        get_prop response "result" = Some result ->
        get_prop result "theme" = Some theme \/
        theme = VObj 0 [("id", themeId);
                        ("name", VStr ("Theme " ++ to_string themeId))])).
Proof.
  all_paths; intros [=];
    (eexists _, _, _; split; [reflexivity|]; split;
     [first [left; reflexivity | right; eexists; split; [reflexivity | assumption]]|];
     split; [intros; first [reflexivity | discriminate]|];
     intros; first [discriminate | split; [first [assumption | reflexivity]|]];
     intros; first [left; congruence | right; reflexivity]).
Qed.

(** Property X18.  When [saveFilterBarOrientation] resolves, the orientation
    it dispatches, if any, is the truthy [filter_bar_orientation] of the
    metadata the server sent back, not the argument; then at most [onSave]
    follows. *)
Theorem orientation_update_success (orientation : value) (info : dashboard_info) :
  snd (saveFilterBarOrientation http JSON_stringify JSON_parse
         addDangerToast onSave getErrorText orientation info) = inr tt ->
  exists r response result json mid tail,
    fst (saveFilterBarOrientation http JSON_stringify JSON_parse
           addDangerToast onSave getErrorText orientation info) =
      Http r :: mid ++ tail /\
    http r = inr response /\
    get_prop response "result" = Some result /\
    get_prop result "json_metadata" = Some json /\
    (mid = [] \/
     exists parsed stored,
       truthy json = true /\ JSON_parse json = Some parsed /\
       get_prop parsed "filter_bar_orientation" = Some stored /\
       truthy stored = true /\
       mid = [Dispatch (setFilterBarOrientation stored)]) /\
    (tail = [] \/
     exists time, tail = [Dispatch (onSave time)] /\ truthy time = true).
Proof.
  all_paths; intros [=];
    first
      [ eexists _, _, _, _, [], []; repeat split; eauto; fail
      | eexists _, _, _, _, [], [_]; repeat split; eauto 8; fail
      | eexists _, _, _, _, [_], []; repeat split; eauto 12; fail
      | eexists _, _, _, _, [_], [_]; repeat split; eauto 12 ].
Qed.

(** Property X19.  When [saveCrossFiltersSetting] resolves and the server
    sent metadata back, it dispatches the [cross_filters_enabled] found
    there whatever it is ([undefined] when the key is missing); without
    metadata it dispatches no setting. *)
Theorem cross_filters_update_success
    (crossFiltersEnabled : value) (info : dashboard_info) :
  snd (saveCrossFiltersSetting http JSON_stringify JSON_parse
         addDangerToast onSave getErrorText crossFiltersEnabled info) = inr tt ->
  exists r response result json mid tail,
    fst (saveCrossFiltersSetting http JSON_stringify JSON_parse
           addDangerToast onSave getErrorText crossFiltersEnabled info) =
      Http r :: mid ++ tail /\
    http r = inr response /\
    get_prop response "result" = Some result /\
    get_prop result "json_metadata" = Some json /\
    (truthy json = false -> mid = []) /\
    (truthy json = true ->
     exists parsed stored,
       JSON_parse json = Some parsed /\
       get_prop parsed "cross_filters_enabled" = Some stored /\
       mid = [Dispatch (setCrossFiltersEnabled stored)]) /\
    (tail = [] \/
     exists time, tail = [Dispatch (onSave time)] /\ truthy time = true).
Proof.
  all_paths; intros [=];
    first
      [ eexists _, _, _, _, [], []; repeat split; eauto; congruence
      | eexists _, _, _, _, [], [_]; repeat split; eauto 8; congruence
      | eexists _, _, _, _, [_], []; repeat split; eauto 12; congruence
      | eexists _, _, _, _, [_], [_]; repeat split; eauto 12; congruence ].
Qed.

(** Property X20.  The request of [saveChartConfiguration] carries the
    stored metadata with [chart_configuration] and
    [global_chart_configuration] replaced by the arguments, an argument that
    is [null] or [undefined] leaving the stored value; every other key is
    sent as stored. *)
Theorem chart_configuration_payload
    (chartConfiguration globalChartConfiguration : value)
    (info : dashboard_info) (r : request) :
  In r (requests (fst (saveChartConfiguration http JSON_stringify JSON_parse t
                         addDangerToast chartConfiguration
                         globalChartConfiguration info))) ->
  exists merged,
    req_payload r = [("json_metadata", VStr (JSON_stringify merged))] /\
    obj_get "chart_configuration" merged =
      (if nullish chartConfiguration
       then obj_get "chart_configuration" (spread_fields (metadata info))
       else chartConfiguration) /\
    obj_get "global_chart_configuration" merged =
      (if nullish globalChartConfiguration
       then obj_get "global_chart_configuration" (spread_fields (metadata info))
       else globalChartConfiguration) /\
    forall k, k <> "chart_configuration" -> k <> "global_chart_configuration" ->
      obj_get k merged = obj_get k (spread_fields (metadata info)).
Proof.
  clear onSave getErrorText to_string.
  all_paths; simpl; try tauto; intros [<- | []]; simpl;
    (eexists; split; [reflexivity|]);
    repeat match goal with
    | H : get_prop _ _ = Some _ |- _ => apply get_prop_fields in H; subst
    end;
    (split; [rewrite !get_set; reflexivity|]);
    (split; [rewrite !get_set; reflexivity|]);
    intros k H1 H2; rewrite !get_set;
    destruct (String.eqb_spec k "global_chart_configuration"); try congruence;
    destruct (String.eqb_spec k "chart_configuration"); congruence.
Qed.

(** Property X21.  With no metadata in the state and a configuration
    argument left out, [saveChartConfiguration] fails before any request:
    it dispatches BEGIN, FAIL and the toast, and resolves. *)
Theorem chart_configuration_without_metadata
    (chartConfiguration globalChartConfiguration : value)
    (info : dashboard_info) :
  nullish (metadata info) = true ->
  nullish chartConfiguration = true \/ nullish globalChartConfiguration = true ->
  saveChartConfiguration http JSON_stringify JSON_parse t addDangerToast
    chartConfiguration globalChartConfiguration info =
  ([Dispatch (chart_config_action SAVE_CHART_CONFIG_BEGIN
                chartConfiguration globalChartConfiguration);
    Dispatch (chart_config_action SAVE_CHART_CONFIG_FAIL
                chartConfiguration globalChartConfiguration);
    Dispatch (addDangerToast (t "Failed to save cross-filter scoping"))],
   inr tt).
Proof.
  intros Hm Hn.
  unfold saveChartConfiguration, coalesce_prop, prop, try_catch, bind,
    dispatch, ret, throw.
  rewrite !(get_prop_nullish _ _ Hm).
  destruct Hn as [-> | Hg]; simpl; [reflexivity|].
  destruct (nullish chartConfiguration); simpl; rewrite ?Hg; reflexivity.
Qed.

End Paths.

(** ** The properties at the sample environment *)

Lemma rejection_is_toasted_witness :
  snd (updateDashboardTheme server_down toast_action on_save_action error_text
         show_number (VNum 7) sample_info) = inl (VStr "Network error") /\
  exists pre,
    fst (updateDashboardTheme server_down toast_action on_save_action
           error_text show_number (VNum 7) sample_info) =
    pre ++ [Dispatch (toast_action
                        (error_text (VStr "Network error") "dashboard"))].
Proof.
  split; [reflexivity|].
  apply (proj1 (rejection_is_toasted server_down stringify_any parse_any
                  toast_action on_save_action error_text show_number
                  (VNum 7) (VStr "HORIZONTAL") (VBool true) sample_info
                  (VStr "Network error"))).
  reflexivity.
Defined.

Lemma theme_update_success_witness :
  snd (updateDashboardTheme server_ok toast_action on_save_action error_text
         show_number (VNum 7) sample_info) = inr tt /\
  exists r theme tail,
    fst (updateDashboardTheme server_ok toast_action on_save_action error_text
           show_number (VNum 7) sample_info) =
      Http r :: Dispatch (setDashboardTheme theme) :: tail /\
    (tail = [] \/
     exists time, tail = [Dispatch (on_save_action time)] /\ truthy time = true) /\
    (strict_eq (VNum 7) VNull = true -> theme = VNull) /\
    (strict_eq (VNum 7) VNull = false ->
     truthy theme = true /\
     (forall response result,
        server_ok r = inr response ->
        get_prop response "result" = Some result ->
        get_prop result "theme" = Some theme \/
        theme = VObj 0 [("id", VNum 7);
                        ("name", VStr ("Theme " ++ show_number (VNum 7)))])).
Proof.
  split; [reflexivity|].
  apply (theme_update_success server_ok toast_action on_save_action error_text
           show_number (VNum 7) sample_info eq_refl).
Defined.

Lemma orientation_update_success_witness :
  snd (saveFilterBarOrientation server_ok stringify_any parse_echo
         toast_action on_save_action error_text (VStr "HORIZONTAL")
         sample_info) = inr tt /\
  fst (saveFilterBarOrientation server_ok stringify_any parse_echo
         toast_action on_save_action error_text (VStr "HORIZONTAL")
         sample_info) =
    [Http (MkRequest "PUT" (VNum 12) [("json_metadata", VStr "{...}")]);
     Dispatch (setFilterBarOrientation (VStr "VERTICAL"));
     Dispatch (on_save_action (VNum 5))].
Proof.
  split; [reflexivity|].
  destruct (orientation_update_success server_ok stringify_any parse_echo
              toast_action on_save_action error_text (VStr "HORIZONTAL")
              sample_info eq_refl)
    as (r & response & result & json & mid & tail & H & _).
  reflexivity.
Defined.

Lemma cross_filters_update_success_witness :
  snd (saveCrossFiltersSetting server_ok stringify_any parse_any
         toast_action on_save_action error_text (VBool true) sample_info)
    = inr tt /\
  fst (saveCrossFiltersSetting server_ok stringify_any parse_any
         toast_action on_save_action error_text (VBool true) sample_info) =
    [Http (MkRequest "PUT" (VNum 12) [("json_metadata", VStr "{...}")]);
     Dispatch (setCrossFiltersEnabled VUndefined);
     Dispatch (on_save_action (VNum 5))].
Proof.
  split; [reflexivity|].
  destruct (cross_filters_update_success server_ok stringify_any parse_any
              toast_action on_save_action error_text (VBool true)
              sample_info eq_refl)
    as (r & response & result & json & mid & tail & H & _).
  reflexivity.
Defined.

Lemma chart_configuration_payload_witness :
  In sample_request
    (requests
       (fst (saveChartConfiguration server_ok stringify_any parse_any
               (fun s => s) toast_action VUndefined (VNum 3) sample_info))) /\
  exists merged,
    req_payload sample_request =
      [("json_metadata", VStr (stringify_any merged))] /\
    obj_get "chart_configuration" merged =
      obj_get "chart_configuration" (spread_fields (metadata sample_info)) /\
    obj_get "global_chart_configuration" merged = VNum 3 /\
    forall k, k <> "chart_configuration" -> k <> "global_chart_configuration" ->
      obj_get k merged = obj_get k (spread_fields (metadata sample_info)).
Proof.
  assert (H : In sample_request
                (requests
                   (fst (saveChartConfiguration server_ok stringify_any
                           parse_any (fun s => s) toast_action VUndefined
                           (VNum 3) sample_info))))
    by (left; reflexivity).
  split; [exact H|].
  apply (chart_configuration_payload server_ok stringify_any parse_any
           (fun s => s) toast_action VUndefined (VNum 3) sample_info
           sample_request H).
Defined.

Lemma chart_configuration_without_metadata_witness :
  nullish (metadata blank_info) = true /\
  (nullish VUndefined = true \/ nullish (VNum 3) = true) /\
  saveChartConfiguration server_ok stringify_any parse_any (fun s => s)
    toast_action VUndefined (VNum 3) blank_info =
  ([Dispatch (chart_config_action SAVE_CHART_CONFIG_BEGIN VUndefined (VNum 3));
    Dispatch (chart_config_action SAVE_CHART_CONFIG_FAIL VUndefined (VNum 3));
    Dispatch (toast_action "Failed to save cross-filter scoping")],
   inr tt).
Proof.
  split; [reflexivity|]. split; [left; reflexivity|].
  apply (chart_configuration_without_metadata server_ok stringify_any
           parse_any (fun s => s) toast_action VUndefined (VNum 3) blank_info
           eq_refl (or_introl eq_refl)).
Defined.

End ThunkPathFacts.
